(** * Trajectory playback and projection engine of the UAV deconfliction
      front end ([frontend/src/App.jsx])

    A shallow embedding of the React component [App]: its state, the event
    handlers that change it ([loadScenario], [verifyMission],
    [loadTrajectories], the animation tick, Play/Pause, Reset), the
    nearest-time sampler [getPositionAtTime], the oblique projection
    [project] and the scene composer [render3DView].

    Numbers.  JavaScript has one number type, the IEEE-754 double.  The
    component is embedded with exact numbers: a number that the code only
    adds, subtracts and compares (simulated time, sample time, the time
    window) is a rational [Q], a coordinate, which goes through [Math.cos]
    and [Math.sin] in [project], is a real [R].  What is proved of that
    embedding is the structure of the code (which cell a handler writes,
    which request is sent, which sample a marker comes from) and the
    arithmetic of the clock, whose additions of 1 are exact in doubles.
    The two functions whose result depends on how doubles round, the
    sampler and the projection, are embedded a second time in module
    [Binary64], on the binary64 numbers of the Standard Library, and the
    properties that rounding decides are settled there. *)

From Stdlib Require Import Floats.
From Stdlib Require Import QArith Qabs Qround Reals Lra Lqa.
From stdpp Require Import gmap strings list fin_maps.

(** Decimal literals of doubles stand for the nearest double, as in
    JavaScript. *)
Set Warnings "-inexact-float".

(** A decimal literal of a real, such as [2.5], is read as
    [Q2R (25 # 10)]: this turns it into a quotient of integers. *)
Ltac unfold_decimals := unfold Q2R; cbn [Qnum Qden].
Tactic Notation "unfold_decimals_in" ne_hyp_list(Hs) :=
  unfold Q2R in Hs; cbn [Qnum Qden] in Hs.

(** Linear arithmetic over the rationals. *)
Ltac qlra := Lqa.lra.

(** ** Data model *)

(** [{x, y, z}]: a waypoint, a sampled position or a conflict location. *)
Record Position : Type := mkPosition {
  pos_x : R;
  pos_y : R;
  pos_z : R
}.

(** [timeWindow: {start, end}]. *)
Record TimeWindow : Type := mkTimeWindow {
  tw_start : Q;
  tw_end : Q
}.

(** [{id, waypoints, timeWindow}]. *)
Record Mission : Type := mkMission {
  mission_id : string;
  waypoints : list Position;
  timeWindow : TimeWindow
}.

(** One element of [data.trajectory]: [{time, position}]. *)
Record TrajectorySample : Type := mkSample {
  time : Q;
  position : Position
}.

Abbreviation Trajectory := (list TrajectorySample).

(** One element of [verificationResult.conflicts]. *)
Record Conflict : Type := mkConflict {
  conflict_time : Q;
  location : Position;
  otherDroneId : string;
  distance : R
}.

Inductive Status : Type := CLEAR | CONFLICT.

Record MlStats : Type := mkMlStats {
  filtered : nat;
  checked : nat
}.

(** The JSON body answered by [/verify]. *)
Record VerificationResult : Type := mkVerificationResult {
  status : Status;
  conflicts : list Conflict;
  analysisTime : R;
  mlUsed : bool;
  mlStats : option MlStats
}.

(** One value of the scenario catalog answered by [/scenarios]. *)
Record Scenario : Type := mkScenario {
  primary : Mission;
  others : list Mission
}.

(** A point of the SVG canvas, the object [{x, y}] built by [project]. *)
Record ScreenPoint : Type := mkScreen {
  sx : R;
  sy : R
}.

(** ** ProjectionTransform: [project], lines 136-143 *)

Module Projection.

Open Scope R_scope.

Definition scale : R := 2.5.
Definition offsetX : R := 200.
Definition offsetY : R := 300.

(** [const project = (x, y, z) => ({ x: offsetX + (x - y) * Math.cos(Math.PI / 6) * scale,
                                      y: offsetY - z * scale * 0.8 + (x + y) * Math.sin(Math.PI / 6) * scale })],
    the expression read over the reals; [Binary64.project] evaluates it in
    doubles as the code does. *)
Definition project (x y z : R) : ScreenPoint :=
  {| sx := offsetX + (x - y) * cos (PI / 6) * scale;
     sy := offsetY - z * scale * 0.8 + (x + y) * sin (PI / 6) * scale |}.



End Projection.

(** ** TrajectorySampler: [getPositionAtTime], lines 116-131 *)

Module Sampler.

Open Scope Q_scope.

(** [Math.abs(sample.time - time)], the subtraction taken exactly;
    [Binary64.timeDiff] rounds it as the code does. *)
Definition timeDiff (t : Q) (sample : TrajectorySample) : Q :=
  Qabs (time sample - t).

(** The [for (const sample of trajectory)] loop, with its two loop
    variables [closest] and [minDiff]. *)
Fixpoint scan (t : Q) (samples : Trajectory)
    (closest : TrajectorySample) (minDiff : Q) : TrajectorySample :=
  match samples with
  | [] => closest
  | sample :: rest =>
      let diff := timeDiff t sample in
      if Qlt_le_dec diff minDiff
      then scan t rest sample diff
      else scan t rest closest minDiff
  end.

(** The argument is [None] for a [null] or [undefined] trajectory; the
    result is [None] for [null]. *)
Definition getPositionAtTime (trajectory : option Trajectory) (t : Q)
    : option Position :=
  match trajectory with
  | None => None
  | Some [] => None
  | Some ((first :: _) as samples) =>
      let closest := scan t samples first (timeDiff t first) in
      Some (position closest)
  end.

End Sampler.

(** ** The component state: the twelve [useState] cells, lines 8-19 *)

(** A value of [trajectories] is whatever [data.trajectory] was: [None]
    stands for [undefined], a response body without that field. *)
Record AppState : Type := mkAppState {
  scenarios : gmap string Scenario;
  selectedScenario : string;
  primaryMission : option Mission;
  otherMissions : list Mission;
  verificationResult : option VerificationResult;
  isLoading : bool;
  useML : bool;
  mlAvailable : bool;
  currentTime : Q;
  isPlaying : bool;
  trajectories : gmap string (option Trajectory);
  view3D : bool
}.

Definition initialState : AppState :=
  {| scenarios := ∅;
     selectedScenario := "conflict";
     primaryMission := None;
     otherMissions := [];
     verificationResult := None;
     isLoading := false;
     useML := false;
     mlAvailable := false;
     currentTime := 0%Q;
     isPlaying := false;
     trajectories := ∅;
     view3D := true |}.

(** The state setters returned by [useState]. *)
Module Setters.

Definition setScenarios (v : gmap string Scenario) (s : AppState) : AppState :=
  mkAppState v (selectedScenario s) (primaryMission s) (otherMissions s)
    (verificationResult s) (isLoading s) (useML s) (mlAvailable s)
    (currentTime s) (isPlaying s) (trajectories s) (view3D s).

Definition setSelectedScenario (v : string) (s : AppState) : AppState :=
  mkAppState (scenarios s) v (primaryMission s) (otherMissions s)
    (verificationResult s) (isLoading s) (useML s) (mlAvailable s)
    (currentTime s) (isPlaying s) (trajectories s) (view3D s).

Definition setPrimaryMission (v : option Mission) (s : AppState) : AppState :=
  mkAppState (scenarios s) (selectedScenario s) v (otherMissions s)
    (verificationResult s) (isLoading s) (useML s) (mlAvailable s)
    (currentTime s) (isPlaying s) (trajectories s) (view3D s).

Definition setOtherMissions (v : list Mission) (s : AppState) : AppState :=
  mkAppState (scenarios s) (selectedScenario s) (primaryMission s) v
    (verificationResult s) (isLoading s) (useML s) (mlAvailable s)
    (currentTime s) (isPlaying s) (trajectories s) (view3D s).

Definition setVerificationResult (v : option VerificationResult) (s : AppState)
    : AppState :=
  mkAppState (scenarios s) (selectedScenario s) (primaryMission s)
    (otherMissions s) v (isLoading s) (useML s) (mlAvailable s)
    (currentTime s) (isPlaying s) (trajectories s) (view3D s).

Definition setIsLoading (v : bool) (s : AppState) : AppState :=
  mkAppState (scenarios s) (selectedScenario s) (primaryMission s)
    (otherMissions s) (verificationResult s) v (useML s) (mlAvailable s)
    (currentTime s) (isPlaying s) (trajectories s) (view3D s).

Definition setUseML (v : bool) (s : AppState) : AppState :=
  mkAppState (scenarios s) (selectedScenario s) (primaryMission s)
    (otherMissions s) (verificationResult s) (isLoading s) v (mlAvailable s)
    (currentTime s) (isPlaying s) (trajectories s) (view3D s).

Definition setMLAvailable (v : bool) (s : AppState) : AppState :=
  mkAppState (scenarios s) (selectedScenario s) (primaryMission s)
    (otherMissions s) (verificationResult s) (isLoading s) (useML s) v
    (currentTime s) (isPlaying s) (trajectories s) (view3D s).

Definition setCurrentTime (v : Q) (s : AppState) : AppState :=
  mkAppState (scenarios s) (selectedScenario s) (primaryMission s)
    (otherMissions s) (verificationResult s) (isLoading s) (useML s)
    (mlAvailable s) v (isPlaying s) (trajectories s) (view3D s).

Definition setIsPlaying (v : bool) (s : AppState) : AppState :=
  mkAppState (scenarios s) (selectedScenario s) (primaryMission s)
    (otherMissions s) (verificationResult s) (isLoading s) (useML s)
    (mlAvailable s) (currentTime s) v (trajectories s) (view3D s).

Definition setTrajectories (v : gmap string (option Trajectory)) (s : AppState)
    : AppState :=
  mkAppState (scenarios s) (selectedScenario s) (primaryMission s)
    (otherMissions s) (verificationResult s) (isLoading s) (useML s)
    (mlAvailable s) (currentTime s) (isPlaying s) v (view3D s).

Definition setView3D (v : bool) (s : AppState) : AppState :=
  mkAppState (scenarios s) (selectedScenario s) (primaryMission s)
    (otherMissions s) (verificationResult s) (isLoading s) (useML s)
    (mlAvailable s) (currentTime s) (isPlaying s) (trajectories s) v.

End Setters.
Export Setters.

(** ** Scenario loading: [loadScenario], lines 39-49 *)

Definition loadScenario (scenarioKey : string)
    (scenariosData : gmap string Scenario) (s : AppState) : AppState :=
  match scenariosData !! scenarioKey with
  | Some scenario =>
      setIsPlaying false
        (setCurrentTime 0%Q
          (setVerificationResult None
            (setSelectedScenario scenarioKey
              (setOtherMissions (others scenario)
                (setPrimaryMission (Some (primary scenario)) s)))))
  | None => s
  end.

(** ** The verification service, as the component sees it *)

(** The two POST requests the component sends.  The mission of a trajectory
    request is [None] when the loop variable is [null]. *)
Inductive Request : Type :=
  | VerifyRequest (primary : Mission) (others : list Mission) (useML : bool)
  | TrajectoryRequest (mission : option Mission) (numSamples : nat).

(** What a handler does besides setting state. *)
Inductive Effect : Type :=
  | Fetch (request : Request)
  | ConsoleError
  | Alert.

(** An [await fetch(...)] followed by [await response.json()] either throws
    ([None]: network error, body that is not JSON) or yields the parsed
    body.  The trajectory endpoint is asked once per mission; its answer may
    depend on the position [n] of the request in the batch.  The parsed body
    of a trajectory response is its [trajectory] field, [None] when the body
    has no such field. *)
Record Backend : Type := mkBackend {
  verifyEndpoint : Request -> option VerificationResult;
  trajectoryEndpoint : nat -> Request -> option (option Trajectory)
}.

(** How a block of statements ends. *)
Inductive Completion (A : Type) : Type :=
  | Normal (a : A)
  | Throw.
Arguments Normal {A} a.
Arguments Throw {A}.

(** ** TrajectoryFetchAdapter: [loadTrajectories], lines 78-97 *)

(** [const allMissions = [primaryMission, ...otherMissions]] *)
Definition allMissions (s : AppState) : list (option Mission) :=
  primaryMission s :: map Some (otherMissions s).

(** The body of the request sent for a mission:
    [JSON.stringify({ mission, numSamples: 50 })]. *)
Definition requestFor (mission : Mission) : Request :=
  TrajectoryRequest (Some mission) 50.

(** The [for (const mission of allMissions)] loop; [n] counts the requests
    already sent, [trajData] is the object being filled and [log] the
    effects so far.  For a [null] mission, [mission.id] throws inside the
    [try] at the latest, and again inside the [catch] handler, whose
    message reads [mission.id]: that second exception leaves the loop. *)
Fixpoint loadLoop (api : Backend) (n : nat) (missions : list (option Mission))
    (trajData : gmap string (option Trajectory)) (log : list Effect)
    : Completion (gmap string (option Trajectory)) * list Effect :=
  match missions with
  | [] => (Normal trajData, log)
  | None :: _ => (Throw, log ++ [Fetch (TrajectoryRequest None 50)])
  | Some mission :: rest =>
      let request := requestFor mission in
      match trajectoryEndpoint api n request with
      | Some data =>
          loadLoop api (S n) rest
            (<[mission_id mission := data]> trajData)
            (log ++ [Fetch request])
      | None =>
          loadLoop api (S n) rest trajData
            (log ++ [Fetch request; ConsoleError])
      end
  end.

Definition loadTrajectories (api : Backend) (s : AppState)
    : Completion AppState * list Effect :=
  match loadLoop api 0 (allMissions s) ∅ [] with
  | (Normal trajData, log) => (Normal (setTrajectories trajData s), log)
  | (Throw, log) => (Throw, log)
  end.

(** ** [verifyMission], lines 51-76 *)

(** The handler run to completion: the state it leaves and its effects in
    order.  [loadTrajectories] reads the missions the handler closed over,
    which no statement of the handler changes. *)
Definition verifyMission (api : Backend) (s : AppState)
    : AppState * list Effect :=
  match primaryMission s, otherMissions s with
  | None, _ => (s, [])
  | Some _, [] => (s, [])
  | Some pm, _ :: _ =>
      let s1 := setIsLoading true s in
      let request :=
        VerifyRequest pm (otherMissions s) (useML s && mlAvailable s) in
      match verifyEndpoint api request with
      | Some result =>
          let s2 := setVerificationResult (Some result) s1 in
          match loadTrajectories api s2 with
          | (Normal s3, log) => (setIsLoading false s3, Fetch request :: log)
          | (Throw, log) =>
              (setIsLoading false s2,
               Fetch request :: log ++ [ConsoleError; Alert])
          end
      | None => (setIsLoading false s1, [Fetch request; ConsoleError; Alert])
      end
  end.

(** ** AnimationClock: the tick effect, lines 99-114, and its buttons *)

(** One firing of the [setInterval] callback.  The interval exists only
    while [isPlaying] holds and a primary mission is loaded (the effect
    returns early otherwise, and its clean-up clears the interval when
    either changes). *)
Definition tick (s : AppState) : AppState :=
  match isPlaying s, primaryMission s with
  | true, Some pm =>
      let maxTime := tw_end (timeWindow pm) in
      let t := currentTime s in
      if Qle_bool maxTime t
      then setCurrentTime maxTime (setIsPlaying false s)
      else setCurrentTime (t + 1)%Q s
  | _, _ => s
  end.

(** The tick as the specification words it, for comparison: the time is
    incremented first, and when the new time reaches or exceeds the end of
    the window it is clamped to the end and the clock stops on that tick. *)
Definition tickAsSpecified (s : AppState) : AppState :=
  match isPlaying s, primaryMission s with
  | true, Some pm =>
      let maxTime := tw_end (timeWindow pm) in
      let newTime := (currentTime s + 1)%Q in
      if Qle_bool maxTime newTime
      then setCurrentTime maxTime (setIsPlaying false s)
      else setCurrentTime newTime s
  | _, _ => s
  end.

(** [Object.keys(trajectories).length > 0]: the animation controls are
    rendered only then (line 374). *)
Definition controlsVisible (s : AppState) : bool :=
  Nat.ltb 0 (size (trajectories s)).

(** Play/Pause button: [setIsPlaying(!isPlaying)]. *)
Definition togglePlay (s : AppState) : AppState :=
  if controlsVisible s then setIsPlaying (negb (isPlaying s)) s else s.

(** Reset button: [setCurrentTime(0); setIsPlaying(false)]. *)
Definition resetClock (s : AppState) : AppState :=
  if controlsVisible s then setIsPlaying false (setCurrentTime 0%Q s) else s.

(** ** The events of a session *)

Inductive Event : Type :=
  | HealthResponse (ml_available : bool)
  | ScenariosResponse (data : gmap string Scenario)
  | ClickConflictScenario
  | ClickClearScenario
  | ClickVerify (api : Backend)
  | ClickToggleML
  | ClickPlayPause
  | ClickReset
  | ClickToggleView
  | Tick.

Definition step (e : Event) (s : AppState) : AppState :=
  match e with
  | HealthResponse b => setMLAvailable b s
  | ScenariosResponse data => loadScenario "conflict" data (setScenarios data s)
  | ClickConflictScenario => loadScenario "conflict" (scenarios s) s
  | ClickClearScenario => loadScenario "clear" (scenarios s) s
  | ClickVerify api => if isLoading s then s else fst (verifyMission api s)
  | ClickToggleML =>
      if mlAvailable s then setUseML (negb (useML s)) s else s
  | ClickPlayPause => togglePlay s
  | ClickReset => resetClock s
  | ClickToggleView =>
      if controlsVisible s then setView3D (negb (view3D s)) s else s
  | Tick => tick s
  end.

(** The states a session can be in. *)
Inductive reachable : AppState -> Prop :=
  | reachable_init : reachable initialState
  | reachable_step e s : reachable s -> reachable (step e s).

(** The state after a sequence of events, oldest first. *)
Definition run (events : list Event) (s : AppState) : AppState :=
  fold_left (fun acc e => step e acc) events s.

(** ** SceneComposer: [render3DView], lines 133-230 *)

Module Scene.
Import Projection Sampler.
Open Scope R_scope.

(** One step of the [d] attribute of a path: [M x y] or [L x y]. *)
Inductive PathCommand : Type := MoveTo | LineTo.

(** The SVG elements of the scene, with the attributes that are not the
    same in every scene of their kind. *)
#[local] Unset Elimination Schemes.
Inductive Svg : Type :=
  | Line (x1 y1 x2 y2 : R)
  | Path (d : list (PathCommand * ScreenPoint)) (stroke : string) (opacity : R)
  | Circle (cx cy r : R) (fill : string) (opacity : option R)
  | Text (x y : R) (fill : string) (content : string)
  | Rect (width height : R)
  | Group (children : list Svg).
#[local] Set Elimination Schemes.

Definition primaryColor : string := "#3b82f6".

(** [i === 0 ? '#ef4444' : '#f59e0b'] *)
Definition otherColor (i : nat) : string :=
  match i with
  | O => "#ef4444"
  | S _ => "#f59e0b"
  end.

(** [renderPath(waypoints, color, opacity)]: the dashed polyline and one
    dot per waypoint. *)
Definition renderPath (waypoints : list Position) (color : string) (opacity : R)
    : list Svg :=
  let points := map (fun w => project (pos_x w) (pos_y w) (pos_z w)) waypoints in
  let pathD :=
    imap (fun i p => (match i with O => MoveTo | S _ => LineTo end, p)) points in
  Path pathD color opacity
  :: map (fun p => Circle (sx p) (sy p) 3 color (Some opacity)) points.

(** [renderDrone(missionId, color, label)]: [None] for [null], no marker. *)
Definition renderDrone (trajectories : gmap string (option Trajectory))
    (currentTime : Q) (missionId color label : string) : option Svg :=
  match trajectories !! missionId with
  | None | Some None => None
  | Some (Some trajectory) =>
      match getPositionAtTime (Some trajectory) currentTime with
      | None => None
      | Some pos =>
          let p := project (pos_x pos) (pos_y pos) (pos_z pos) in
          Some (Group [Circle (sx p) (sy p) 8 color None;
                       Text (sx p) (sy p - 15) color label])
      end
  end.

(** The eight pairs of grid lines. *)
Definition grid : list Svg :=
  map (fun i : nat =>
         Group [Line (offsetX + INR i * 50) (offsetY - 200)
                     (offsetX + INR i * 50) (offsetY + 100);
                Line (offsetX - 200) (offsetY + INR i * 30)
                     (offsetX + 400) (offsetY + INR i * 30)])
      (seq 0 8).

(** One circle of radius [15 * scale] per conflict of the verification
    result; nothing when there is no result. *)
Definition conflictZones (verificationResult : option VerificationResult)
    : list Svg :=
  match verificationResult with
  | None => []
  | Some result =>
      map (fun conflict =>
             let p := project (pos_x (location conflict))
                              (pos_y (location conflict))
                              (pos_z (location conflict)) in
             Circle (sx p) (sy p) (15 * scale) "red" (Some 0.2))
          (conflicts result)
  end.

Definition legend : Svg :=
  Group [Rect 160 80;
         Circle 15 20 6 "#3b82f6" None; Text 30 25 "white" "Primary";
         Circle 15 45 6 "#ef4444" None; Text 30 50 "white" "Drone-A";
         Circle 15 70 6 "#f59e0b" None; Text 30 75 "white" "Drone-B"].

(** The children of the [<svg>] element, in document order; [None] when
    the function returns [null]. *)
Definition render3DView (s : AppState) : option (list Svg) :=
  match primaryMission s with
  | None => None
  | Some pm =>
      Some (grid
            ++ renderPath (waypoints pm) primaryColor 0.5
            ++ concat (imap (fun i drone =>
                               renderPath (waypoints drone) (otherColor i) 0.3)
                            (otherMissions s))
            ++ conflictZones (verificationResult s)
            ++ option_list (renderDrone (trajectories s) (currentTime s)
                              (mission_id pm) primaryColor "PRIMARY")
            ++ omap (fun x => x)
                 (imap (fun i drone =>
                          renderDrone (trajectories s) (currentTime s)
                            (mission_id drone) (otherColor i) (mission_id drone))
                       (otherMissions s))
            ++ [legend])
  end.

End Scene.

(** ** The sampler and the projection on doubles *)

Module Binary64.

Open Scope float_scope.

(** [{x, y, z}] with double coordinates. *)
Record Position : Type := mkPosition {
  pos_x : float;
  pos_y : float;
  pos_z : float
}.

(** [{time, position}]. *)
Record TrajectorySample : Type := mkSample {
  time : float;
  position : Position
}.

(** The object [{x, y}] built by [project]. *)
Record ScreenPoint : Type := mkScreen {
  sx : float;
  sy : float
}.

(** [Math.abs(sample.time - time)]: the subtraction rounds to the nearest
    double, the absolute value is exact. *)
Definition timeDiff (t : float) (sample : TrajectorySample) : float :=
  PrimFloat.abs (time sample - t).

(** The [for (const sample of trajectory)] loop; [diff < minDiff] is false
    when either side is NaN. *)
Fixpoint scan (t : float) (samples : list TrajectorySample)
    (closest : TrajectorySample) (minDiff : float) : TrajectorySample :=
  match samples with
  | [] => closest
  | sample :: rest =>
      let diff := timeDiff t sample in
      if diff <? minDiff
      then scan t rest sample diff
      else scan t rest closest minDiff
  end.

Definition getPositionAtTime (trajectory : option (list TrajectorySample))
    (t : float) : option Position :=
  match trajectory with
  | None => None
  | Some [] => None
  | Some ((first :: _) as samples) =>
      let closest := scan t samples first (timeDiff t first) in
      Some (position closest)
  end.

Definition scale : float := 2.5.
Definition offsetX : float := 200.
Definition offsetY : float := 300.

(** The doubles [Math.cos(Math.PI / 6)] and [Math.sin(Math.PI / 6)]
    evaluate to; the two library functions are not part of the component. *)
Definition cosPI6 : float := 0.8660254037844387.
Definition sinPI6 : float := 0.49999999999999994.

(** [project], every operation rounding to the nearest double, in the
    source's order of operations. *)
Definition project (x y z : float) : ScreenPoint :=
  {| sx := offsetX + (x - y) * cosPI6 * scale;
     sy := offsetY - z * scale * 0.8 + (x + y) * sinPI6 * scale |}.

(** The rational number a double stands for; [None] for NaN and the
    infinities. *)
Definition exactValue (x : float) : option Q :=
  match Prim2SF x with
  | S754_zero _ => Some 0%Q
  | S754_finite s m e =>
      Some ((if s then - inject_Z (Z.pos m) else inject_Z (Z.pos m))
            * Qpower 2 e)%Q
  | S754_infinity _ | S754_nan => None
  end.

(** [a] is nearer to [t] than [b] is, in exact arithmetic. *)
Definition exactlyNearer (a b t : float) : Prop :=
  match exactValue a, exactValue b, exactValue t with
  | Some qa, Some qb, Some qt => (Qabs (qa - qt) < Qabs (qb - qt))%Q
  | _, _, _ => False
  end.


End Binary64.

(** ** The order of the doubles *)

Module DoubleOrder.
Open Scope Z_scope.

(** A key whose lexicographic order is the order of the doubles that are
    numbers; the two zeros share a key, NaN has none. *)
Definition key (x : spec_float) : option (Z * Z * Z) :=
  match x with
  | S754_nan => None
  | S754_infinity true => Some (-2, 0, 0)
  | S754_finite true m e => Some (-1, - e, - Z.pos m)
  | S754_zero _ => Some (0, 0, 0)
  | S754_finite false m e => Some (1, e, Z.pos m)
  | S754_infinity false => Some (2, 0, 0)
  end.

Definition keyLt (a b : Z * Z * Z) : Prop :=
  let '(a1, a2, a3) := a in
  let '(b1, b2, b3) := b in
  a1 < b1 \/ (a1 = b1 /\ (a2 < b2 \/ (a2 = b2 /\ a3 < b3))).

End DoubleOrder.

(** ** The results panel and the time bar, lines 352-368 and 396-404 *)

Module Panel.



(** The width of the time bar, in percent:
    [primaryMission ? (currentTime / primaryMission.timeWindow.end) * 100 : 0].
    For an end of 0 the quotient is NaN or an infinity in JavaScript and 0
    here: the value is meant for a window that ends after 0 only. *)
Definition progressPercent (s : AppState) : Q :=
  match primaryMission s with
  | Some pm => (currentTime s / tw_end (timeWindow pm) * 100)%Q
  | None => 0%Q
  end.

End Panel.

(** ** Runs of the clock and logs of effects *)

(** [n] firings of the interval callback in a row. *)
Definition ticks (n : nat) (s : AppState) : AppState := Nat.iter n tick s.

(** The requests of a log of effects, in the order they were sent. *)
Definition requestsOf (log : list Effect) : list Request :=
  omap (fun e => match e with Fetch r => Some r | _ => None end) log.

(** ** Notions used to state properties of a session *)

Module Notions.
Import Scene.

(** What needs a primary mission: a running clock, visible animation
    controls, a stored verification result. *)
Definition needsPrimary (s : AppState) : Prop :=
  isPlaying s = true \/ controlsVisible s = true \/
  is_Some (verificationResult s).

(** The marker of a mission: [Group [circle; label]] at a screen point. *)
Definition markerAt (p : ScreenPoint) (color label : string) : Svg :=
  Group [Circle (sx p) (sy p) 8 color None;
         Text (sx p) (sy p - 15)%R color label].

End Notions.

(** ** The clock invariant *)

Module ClockInvariant.
Open Scope Q_scope.

(** A number with no fractional part. *)
Definition isInteger (q : Q) : Prop := exists n : Z, q == inject_Z n.

(** What holds of the clock in every state of a session: without a primary
    mission the time is 0; with one, the time is the end of its window, or
    a natural number that is 0 or was reached by a tick from below the
    end. *)
Definition clockInv (s : AppState) : Prop :=
  match primaryMission s with
  | None => currentTime s = 0
  | Some pm =>
      currentTime s == tw_end (timeWindow pm) \/
      exists n : nat,
        currentTime s == inject_Z (Z.of_nat n) /\
        (n = 0%nat \/ inject_Z (Z.of_nat n) - 1 < tw_end (timeWindow pm))
  end.

End ClockInvariant.

(** ** A session used in the examples below *)

Module Demo.

(** A catalog with the two scenarios of the buttons; the primary mission of
    both has the given time window. *)
Definition primaryOf (tw : TimeWindow) : Mission :=
  mkMission "PRIMARY" [mkPosition 0 0 50; mkPosition 100 100 50] tw.

Definition droneA : Mission :=
  mkMission "DRONE_A" [mkPosition 100 0 50; mkPosition 0 100 50]
    (mkTimeWindow 0 5).

Definition droneB : Mission :=
  mkMission "DRONE_B" [mkPosition 0 200 80; mkPosition 100 200 80]
    (mkTimeWindow 0 5).

Definition catalog (tw : TimeWindow) : gmap string Scenario :=
  <["conflict" := mkScenario (primaryOf tw) [droneA]]>
    (<["clear" := mkScenario (primaryOf tw) [droneB]]> ∅).

Definition sampled : Trajectory :=
  [mkSample 0 (mkPosition 0 0 50); mkSample 5 (mkPosition 100 100 50)].

Definition conflictFound : VerificationResult :=
  mkVerificationResult CONFLICT
    [mkConflict (5 # 2) (mkPosition 50 50 50) "DRONE_A" 0] 0 false None.

(** A service that answers every request. *)
Definition online : Backend :=
  mkBackend (fun _ => Some conflictFound) (fun _ _ => Some (Some sampled)).

(** A service that cannot be reached. *)
Definition offline : Backend :=
  mkBackend (fun _ => None) (fun _ _ => None).

(** A service whose trajectory endpoint fails for the first request of a
    batch only. *)
Definition flaky : Backend :=
  mkBackend (fun _ => Some conflictFound)
    (fun n _ => match n with O => None | S _ => Some (Some sampled) end).

(** A second mission under the identifier of the primary one, a state
    that holds both, and a service that answers the first trajectory
    request of a batch with [sampled] and the later ones with an empty
    trajectory. *)
Definition twin : Mission :=
  mkMission "PRIMARY" [mkPosition 5 5 5] (mkTimeWindow 0 5).

Definition twinned : AppState :=
  setOtherMissions [twin]
    (setPrimaryMission (Some (primaryOf (mkTimeWindow 0 5))) initialState).

Definition byTurns : Backend :=
  mkBackend (fun _ => Some conflictFound)
    (fun n _ => match n with O => Some (Some sampled) | S _ => Some (Some []) end).

(** A trajectory that is not sorted by time and holds one time twice, and
    two pairs of samples whose distances to a query time (2^53 for the
    first pair, 1 for the second) round to the same double. *)
Definition revisited64 : list Binary64.TrajectorySample :=
  [ Binary64.mkSample 0 (Binary64.mkPosition 0 0 0);
    Binary64.mkSample 10 (Binary64.mkPosition 1 1 1);
    Binary64.mkSample 4 (Binary64.mkPosition 2 2 2);
    Binary64.mkSample 10 (Binary64.mkPosition 3 3 3) ].

Definition farPair : list Binary64.TrajectorySample :=
  [ Binary64.mkSample (-1) (Binary64.mkPosition 0 0 0);
    Binary64.mkSample 0 (Binary64.mkPosition 1 1 1) ].

Definition closePair : list Binary64.TrajectorySample :=
  [ Binary64.mkSample 0 (Binary64.mkPosition 0 0 0);
    Binary64.mkSample 1e-17 (Binary64.mkPosition 1 1 1) ].

(** Catalog received, verification run, Play pressed. *)
Definition playing (tw : TimeWindow) : AppState :=
  run [ScenariosResponse (catalog tw); ClickVerify online; ClickPlayPause]
      initialState.

End Demo.

(** * Verification *)

Module ProjectionFacts.
Import Projection.
Open Scope R_scope.


(** With the exact values of the two trigonometric constants. *)
Lemma project_closed_form (x y z : R) :
  project x y z
  = {| sx := 200 + (x - y) * (sqrt 3 / 2) * 2.5;
       sy := 300 - 2 * z + (x + y) * 1.25 |}.
Proof.
  unfold project, scale, offsetX, offsetY.
  rewrite cos_PI6, sin_PI6. f_equal; unfold_decimals; field.
Qed.




End ProjectionFacts.

Module SamplerFacts.
Import Sampler.
Open Scope Q_scope.

(** What the loop keeps true: [closest] sits at index [i] of the whole
    trajectory, no sample already visited is closer, and every sample
    before index [i] is strictly farther. *)
Lemma scan_first_minimum t (rest : Trajectory) :
  forall (visited : Trajectory) (closest : TrajectorySample) (i : nat),
    (visited ++ rest) !! i = Some closest ->
    (forall j s', visited !! j = Some s' -> timeDiff t closest <= timeDiff t s') ->
    (forall j s', (j < i)%nat -> (visited ++ rest) !! j = Some s' ->
                  timeDiff t closest < timeDiff t s') ->
    exists i' s,
      (visited ++ rest) !! i' = Some s /\
      scan t rest closest (timeDiff t closest) = s /\
      (forall j s', (visited ++ rest) !! j = Some s' ->
                    timeDiff t s <= timeDiff t s') /\
      (forall j s', (j < i')%nat -> (visited ++ rest) !! j = Some s' ->
                    timeDiff t s < timeDiff t s').
Proof.
  induction rest as [|sample rest IH]; intros visited closest i Hi Hmin Hstrict.
  - exists i, closest. rewrite app_nil_r in *. auto.
  - cbn [scan].
    replace (visited ++ sample :: rest) with ((visited ++ [sample]) ++ rest) in *
      by (rewrite <- app_assoc; reflexivity).
    destruct (Qlt_le_dec (timeDiff t sample) (timeDiff t closest)) as [Hlt|Hle].
    + apply (IH (visited ++ [sample]) sample (length visited)).
      * rewrite lookup_app_l by (rewrite length_app; cbn; lia).
        rewrite lookup_app_r by lia. now rewrite Nat.sub_diag.
      * intros j s' Hj. apply lookup_app_Some in Hj as [Hj|[_ Hj]].
        -- specialize (Hmin j s' Hj). qlra.
        -- apply list_lookup_singleton_Some in Hj as [_ <-]. qlra.
      * intros j s' Hlen Hj.
        rewrite lookup_app_l in Hj by (rewrite length_app; cbn; lia).
        rewrite lookup_app_l in Hj by lia.
        specialize (Hmin j s' Hj). qlra.
    + apply (IH (visited ++ [sample]) closest i); auto.
      intros j s' Hj. apply lookup_app_Some in Hj as [Hj|[_ Hj]].
      * eauto.
      * apply list_lookup_singleton_Some in Hj as [_ <-]. exact Hle.
Qed.

(** Of [[{time:0,pos:A}, {time:10,pos:B}]] the sample nearest to time 7
    is B; and of two samples equally close, the first wins. *)
Example getPositionAtTime_nearest_example (A B : Position) :
  getPositionAtTime (Some [mkSample 0 A; mkSample 10 B]) 7 = Some B.
Proof. reflexivity. Qed.

Example getPositionAtTime_tie_example (A B : Position) :
  getPositionAtTime (Some [mkSample 4 A; mkSample 10 B]) 7 = Some A.
Proof. reflexivity. Qed.

(** C7: for every query time, getPositionAtTime of an absent (null or
    undefined) trajectory and of an empty trajectory is the absent result
    null; the guard returns before any sample is read, so nothing is
    thrown. *)
Theorem getPositionAtTime_empty (t : Q) :
  getPositionAtTime None t = None /\ getPositionAtTime (Some []) t = None.
Proof. split; reflexivity. Qed.

End SamplerFacts.

(** ** Facts about doubles, from the specification of binary64 *)

Module DoubleFacts.
Import DoubleOrder.
Open Scope Z_scope.

Lemma SFltb_key x y kx ky :
  key x = Some kx -> key y = Some ky ->
  (SFltb x y = true <-> keyLt kx ky).
Proof.
  unfold SFltb, SFcompare.
  destruct x as [[]|[]| |[] mx ex], y as [[]|[]| |[] my ey]; cbn [key];
    intros Hx Hy; try discriminate;
    injection Hx as <-; injection Hy as <-; unfold keyLt;
    try (split; [discriminate|lia]); try (split; [lia|reflexivity]).
  - change (Pos.compare_cont Eq mx my) with (Pos.compare mx my).
    destruct (Z.compare_spec ex ey); destruct (Pos.compare_spec mx my); cbn;
      split; try discriminate; try lia; reflexivity.
  - change (Pos.compare_cont Eq mx my) with (Pos.compare mx my).
    destruct (Z.compare_spec ex ey); destruct (Pos.compare_spec mx my); cbn;
      split; try discriminate; try lia; reflexivity.
Qed.

Lemma key_is_Some x : x <> S754_nan -> exists k, key x = Some k.
Proof. destruct x as [[]|[]| |[] m e]; intros H; cbn; eauto; congruence. Qed.

(** Shifting a mantissa to the right. *)
Lemma iter_pos_nat {A} (f : A -> A) (p : positive) (x : A) :
  SpecFloat.iter_pos f p x = Nat.iter (Pos.to_nat p) f x.
Proof.
  revert x. induction p as [p IH|p IH|]; intros x; cbn [SpecFloat.iter_pos].
  - rewrite !IH, Pos2Nat.inj_xI.
    replace (S (2 * Pos.to_nat p))%nat
      with (Pos.to_nat p + (Pos.to_nat p + 1))%nat by lia.
    rewrite !Nat.iter_add. reflexivity.
  - rewrite !IH, Pos2Nat.inj_xO.
    replace (2 * Pos.to_nat p)%nat with (Pos.to_nat p + Pos.to_nat p)%nat by lia.
    rewrite Nat.iter_add. reflexivity.
  - reflexivity.
Qed.

Lemma shr_1_positive (q : positive) (r s : bool) :
  1 < Z.pos (digits2_pos q) ->
  exists q' r' s',
    shr_1 (Build_shr_record (Z.pos q) r s) = Build_shr_record (Z.pos q') r' s' /\
    Z.pos (digits2_pos q') = Z.pos (digits2_pos q) - 1.
Proof.
  destruct q as [q|q|]; cbn [shr_1 digits2_pos]; intros H.
  - eexists _, _, _. split; [reflexivity|lia].
  - eexists _, _, _. split; [reflexivity|lia].
  - lia.
Qed.

Lemma shr_n_positive (n : nat) :
  forall (q : positive) (r s : bool),
    Z.of_nat n < Z.pos (digits2_pos q) ->
    exists q' r' s',
      Nat.iter n shr_1 (Build_shr_record (Z.pos q) r s)
      = Build_shr_record (Z.pos q') r' s' /\
      Z.pos (digits2_pos q') = Z.pos (digits2_pos q) - Z.of_nat n.
Proof.
  induction n as [|n IH]; intros q r s H.
  - exists q, r, s. split; [reflexivity|lia].
  - destruct (IH q r s) as (q1 & r1 & s1 & Hrun & Hd); [lia|].
    rewrite Nat.iter_succ, Hrun.
    destruct (shr_1_positive q1 r1 s1) as (q2 & r2 & s2 & Hstep & Hd2); [lia|].
    exists q2, r2, s2. split; [exact Hstep|lia].
Qed.

Lemma shr_fexp_positive (m : positive) (e : Z) (l : SpecFloat.location) :
  emin <= e ->
  exists m' r s e',
    shr_fexp prec emax (Z.pos m) e l = (Build_shr_record (Z.pos m') r s, e') /\
    emin <= e'.
Proof.
  intros He. unfold shr_fexp, shr, Zdigits2.
  assert (Hloc : exists r s, shr_record_of_loc (Z.pos m) l
                             = Build_shr_record (Z.pos m) r s).
  { destruct l as [|[]]; cbn; eauto. }
  destruct Hloc as (r & s & ->).
  destruct (fexp prec emax (Z.pos (digits2_pos m) + e) - e) as [|p|p] eqn:Hn.
  - eauto 6.
  - rewrite iter_pos_nat.
    destruct (shr_n_positive (Pos.to_nat p) m r s) as (q' & r' & s' & -> & _).
    + rewrite positive_nat_Z. unfold fexp, SpecFloat.emin, prec, emax in *. lia.
    + exists q', r', s', (e + Z.pos p). split; [reflexivity|lia].
  - eauto 6.
Qed.

Lemma binary_round_aux_not_zero (s : bool) (m : positive) (e : Z) (s' : bool) :
  emin <= e ->
  binary_round_aux prec emax s (Z.pos m) e loc_Exact <> S754_zero s'.
Proof.
  intros He. unfold binary_round_aux.
  destruct (shr_fexp_positive m e loc_Exact He) as (m1 & r1 & s1 & e1 & -> & He1).
  cbn [shr_m].
  assert (Hround : exists m2, round_nearest_even (Z.pos m1)
                     (loc_of_shr_record (Build_shr_record (Z.pos m1) r1 s1))
                   = Z.pos m2).
  { unfold round_nearest_even.
    destruct r1, s1; cbn [loc_of_shr_record];
      try destruct (Z.even (Z.pos m1)); eauto;
      exists (m1 + 1)%positive; reflexivity. }
  destruct Hround as [m2 ->].
  destruct (shr_fexp_positive m2 e1 loc_Exact He1) as (m3 & r3 & s3 & e3 & -> & _).
  cbn [shr_m]. destruct (e3 <=? emax - prec); discriminate.
Qed.

Lemma binary_round_not_zero (s : bool) (m : positive) (e : Z) (s' : bool) :
  emin <= e ->
  binary_round prec emax s m e <> S754_zero s'.
Proof.
  intros He. unfold binary_round, shl_align.
  destruct (fexp prec emax (Z.pos (digits2_pos m) + e) - e) as [|p|p] eqn:Hn;
    apply binary_round_aux_not_zero; try exact He.
  unfold fexp, SpecFloat.emin, prec, emax in *. lia.
Qed.


Lemma digits2_shift (m d : positive) :
  Z.pos (digits2_pos (Pos.iter xO m d)) = Z.pos (digits2_pos m) + Z.pos d.
Proof.
  induction d as [|d IH] using Pos.peano_ind.
  - cbn. lia.
  - rewrite Pos.iter_succ. cbn [digits2_pos]. lia.
Qed.

Lemma valid_exponent (s : bool) (m : positive) (e : Z) :
  valid_binary (S754_finite s m e) = true ->
  fexp prec emax (Z.pos (digits2_pos m) + e) = e /\ emin <= e.
Proof.
  cbn [SpecFloat.valid_binary]. unfold bounded, canonical_mantissa.
  intros H. apply andb_true_iff in H as [H _]. apply Z.eqb_eq in H.
  split; [exact H|]. unfold fexp, SpecFloat.emin, prec, emax in *. lia.
Qed.

(** Two numbers compare equal exactly when they are the same number. *)
Lemma SFcompare_refl (x : spec_float) :
  x <> S754_nan -> SFcompare x x = Some Eq.
Proof.
  destruct x as [[]|[]| |[] m e]; intros H; cbn; try congruence;
    rewrite Z.compare_refl;
    change (Pos.compare_cont Eq m m) with (Pos.compare m m);
    now rewrite Pos.compare_refl.
Qed.

(** The difference of two doubles is a zero only when they compare equal. *)
Lemma SFsub_zero (x y : spec_float) (s : bool) :
  valid_binary x = true -> valid_binary y = true ->
  SF64sub x y = S754_zero s -> SFeqb x y = true.
Proof.
  intros Hx Hy. unfold SF64sub, SFsub, SFeqb.
  destruct x as [sx|sx| |sx mx ex], y as [sy|sy| |sy my ey];
    try discriminate; try reflexivity.
  - destruct sx, sy; discriminate.
  - destruct (valid_exponent _ _ _ Hx) as [Hcx Hex].
    destruct (valid_exponent _ _ _ Hy) as [Hcy Hey].
    unfold binary_normalize.
    destruct (cond_Zopp sx (Z.pos (shl_align mx ex (Z.min ex ey)).1)
              - cond_Zopp sy (Z.pos (shl_align my ey (Z.min ex ey)).1))
      as [|d|d] eqn:Hd; intros H.
    + assert (sx = sy /\ (shl_align mx ex (Z.min ex ey)).1
                        = (shl_align my ey (Z.min ex ey)).1) as [-> Hm].
      { destruct sx, sy; cbn [cond_Zopp] in Hd; split; try reflexivity; lia. }
      assert (ex = ey /\ mx = my) as [-> ->].
      { unfold shl_align in Hm.
        destruct (Z.min ex ey - ex) as [|p|p] eqn:Hpx;
          destruct (Z.min ex ey - ey) as [|q|q] eqn:Hpy; cbn [fst] in Hm;
          try lia.
        - pose proof (digits2_shift my q) as Hdig. rewrite <- Hm in Hdig.
          unfold fexp, SpecFloat.emin, prec, emax in *. lia.
        - pose proof (digits2_shift mx p) as Hdig. rewrite Hm in Hdig.
          unfold fexp, SpecFloat.emin, prec, emax in *. lia. }
      rewrite SFcompare_refl; [reflexivity|discriminate].
    + exfalso. apply (binary_round_not_zero false d (Z.min ex ey) s); [lia|exact H].
    + exfalso. apply (binary_round_not_zero true d (Z.min ex ey) s); [lia|exact H].
Qed.

(** The difference of two doubles that compare equal is a zero, unless
    they are infinite. *)
Lemma SFsub_equal (x y : spec_float) :
  SFeqb x y = true -> SF64sub x y <> S754_nan ->
  exists s, SF64sub x y = S754_zero s.
Proof.
  unfold SF64sub, SFsub, SFeqb, SFcompare.
  destruct x as [sx|sx| |sx mx ex], y as [sy|sy| |sy my ey];
    try discriminate; try (destruct sx; discriminate);
    try (destruct sy; discriminate).
  - destruct sx, sy; eauto.
  - destruct sx, sy; intros; congruence.
  - change (Pos.compare_cont Eq mx my) with (Pos.compare mx my).
    destruct sx, sy; try discriminate;
      destruct (Z.compare_spec ex ey); try discriminate;
      destruct (Pos.compare_spec mx my); try discriminate;
      subst; intros _ _; rewrite Z.sub_diag; cbn; eauto.
Qed.


Lemma SFleb_key x y kx ky :
  key x = Some kx -> key y = Some ky ->
  (SFleb x y = true <-> ~ keyLt ky kx).
Proof.
  unfold SFleb, SFcompare.
  destruct x as [[]|[]| |[] mx ex], y as [[]|[]| |[] my ey]; cbn [key];
    intros Hx Hy; try discriminate;
    injection Hx as <-; injection Hy as <-; unfold keyLt;
    try (split; [intros _; lia|reflexivity]); try (split; [discriminate|lia]).
  - change (Pos.compare_cont Eq mx my) with (Pos.compare mx my).
    destruct (Z.compare_spec ex ey); destruct (Pos.compare_spec mx my); cbn;
      split; try discriminate; try lia; reflexivity.
  - change (Pos.compare_cont Eq mx my) with (Pos.compare mx my).
    destruct (Z.compare_spec ex ey); destruct (Pos.compare_spec mx my); cbn;
      split; try discriminate; try lia; reflexivity.
Qed.

Lemma SFltb_numbers x y :
  SFltb x y = true -> x <> S754_nan /\ y <> S754_nan.
Proof.
  unfold SFltb, SFcompare.
  destruct x as [[]|[]| |[] mx ex], y as [[]|[]| |[] my ey];
    intros H; split; congruence.
Qed.

(** A distance that zero is not below is a zero. *)
Lemma SFabs_not_above_zero (x : spec_float) (s0 : bool) :
  x <> S754_nan -> SFltb (S754_zero s0) (SFabs x) = false ->
  exists s, x = S754_zero s.
Proof.
  unfold SFltb, SFcompare.
  destruct x as [s|s| |s m e]; cbn; intros Hn H; try congruence; eauto.
Qed.

End DoubleFacts.

(** ** The sampler and the projection on doubles *)

Module Binary64Facts.
Import Binary64 DoubleOrder DoubleFacts.
Open Scope float_scope.

Lemma is_nan_spec (x : float) : is_nan x = false <-> Prim2SF x <> S754_nan.
Proof.
  unfold is_nan. rewrite FloatAxioms.eqb_spec. unfold SFeqb. split.
  - intros H Hn. rewrite Hn in H. discriminate.
  - intros H. now rewrite SFcompare_refl.
Qed.

Lemma ltb_numbers (x y : float) :
  (x <? y) = true -> is_nan x = false /\ is_nan y = false.
Proof.
  rewrite FloatAxioms.ltb_spec, !is_nan_spec. apply SFltb_numbers.
Qed.

Lemma ltb_irrefl (x : float) : (x <? x) = false.
Proof.
  destruct (x <? x) eqn:H; [|reflexivity].
  destruct (ltb_numbers _ _ H) as [Hx _]. apply is_nan_spec in Hx.
  rewrite FloatAxioms.ltb_spec in H. unfold SFltb in H.
  rewrite SFcompare_refl in H by exact Hx. discriminate.
Qed.

(** On doubles that are numbers, [<] is the strict order of their keys. *)
Lemma ltb_keys (x y : float) :
  is_nan x = false -> is_nan y = false ->
  exists kx ky,
    key (Prim2SF x) = Some kx /\ key (Prim2SF y) = Some ky /\
    ((x <? y) = true <-> keyLt kx ky) /\
    ((x <=? y) = true <-> ~ keyLt ky kx).
Proof.
  rewrite !is_nan_spec. intros Hx Hy.
  destruct (key_is_Some _ Hx) as [kx Hkx], (key_is_Some _ Hy) as [ky Hky].
  exists kx, ky. rewrite FloatAxioms.ltb_spec, FloatAxioms.leb_spec.
  repeat split; try assumption;
    try apply (SFltb_key _ _ _ _ Hkx Hky); apply (SFleb_key _ _ _ _ Hkx Hky).
Qed.

Ltac order_by_keys :=
  repeat match goal with
         | H : _ /\ _ |- _ => destruct H
         | H : exists _, _ |- _ => destruct H
         | k : (Z * Z * Z)%type |- _ => destruct k as [[? ?] ?]
         end;
  unfold keyLt in *; simplify_eq; lia.

Lemma ltb_trans (x y z : float) :
  (x <? y) = true -> (y <? z) = true -> (x <? z) = true.
Proof.
  intros Hxy Hyz.
  destruct (ltb_numbers _ _ Hxy) as [Hx Hy], (ltb_numbers _ _ Hyz) as [_ Hz].
  destruct (ltb_keys x y Hx Hy) as (kx & ky & Hkx & Hky & Hlt1 & _).
  destruct (ltb_keys y z Hy Hz) as (ky' & kz & Hky' & Hkz & Hlt2 & _).
  destruct (ltb_keys x z Hx Hz) as (kx' & kz' & Hkx' & Hkz' & Hlt3 & _).
  apply Hlt1 in Hxy. apply Hlt2 in Hyz. apply Hlt3.
  rewrite Hkx in Hkx'. rewrite Hky in Hky'. rewrite Hkz in Hkz'.
  order_by_keys.
Qed.

(** What is below a bound is below every number that is not. *)
Lemma ltb_below (x y m : float) :
  (x <? m) = true -> (y <? m) = false -> is_nan y = false -> (x <? y) = true.
Proof.
  intros Hxm Hym Hy.
  destruct (ltb_numbers _ _ Hxm) as [Hx Hm].
  destruct (ltb_keys x m Hx Hm) as (kx & km & Hkx & Hkm & Hlt1 & _).
  destruct (ltb_keys y m Hy Hm) as (ky & km' & Hky & Hkm' & Hlt2 & _).
  destruct (ltb_keys x y Hx Hy) as (kx' & ky' & Hkx' & Hky' & Hlt3 & _).
  apply Hlt1 in Hxm. apply Hlt3.
  assert (Hnot : ~ keyLt ky km') by (rewrite <- Hlt2; congruence).
  rewrite Hkx in Hkx'. rewrite Hky in Hky'. rewrite Hkm in Hkm'.
  order_by_keys.
Qed.

Lemma leb_not_ltb (x y : float) :
  is_nan x = false -> is_nan y = false -> (y <? x) = false -> (x <=? y) = true.
Proof.
  intros Hx Hy H.
  destruct (ltb_keys x y Hx Hy) as (kx & ky & Hkx & Hky & _ & Hle).
  destruct (ltb_keys y x Hy Hx) as (ky' & kx' & Hky' & Hkx' & Hlt & _).
  apply Hle. rewrite Hkx in Hkx'. rewrite Hky in Hky'. simplify_eq.
  rewrite <- Hlt. congruence.
Qed.

(** A computed distance is 0 exactly when the two times compare equal. *)
Lemma timeDiff_equal (t : float) (s : TrajectorySample) :
  is_nan (timeDiff t s) = false ->
  (time s =? t) = true ->
  exists z, Prim2SF (timeDiff t s) = S754_zero z.
Proof.
  unfold timeDiff. rewrite is_nan_spec, FloatAxioms.abs_spec, FloatAxioms.sub_spec, FloatAxioms.eqb_spec.
  intros Hn Heq.
  destruct (SFsub_equal _ _ Heq) as [z Hz].
  - intros H. apply Hn. now rewrite H.
  - rewrite Hz. cbn. eauto.
Qed.

Lemma timeDiff_zero (t : float) (s : TrajectorySample) (z : bool) :
  Prim2SF (timeDiff t s) = S754_zero z -> (time s =? t) = true.
Proof.
  unfold timeDiff. rewrite FloatAxioms.abs_spec, FloatAxioms.sub_spec, FloatAxioms.eqb_spec. intros H.
  destruct (SF64sub (Prim2SF (time s)) (Prim2SF t)) as [z'| | |] eqn:Hsub;
    try discriminate.
  apply (SFsub_zero _ _ z'); auto using Prim2SF_valid.
Qed.

(** What the loop keeps true, on doubles: [closest] sits at index [i], no
    sample already visited has a smaller computed distance, and every
    sample before index [i] has a greater one. *)
Lemma scan_first_minimum64 (t : float) (rest : list TrajectorySample) :
  forall (visited : list TrajectorySample) (closest : TrajectorySample) (i : nat),
    (forall s', s' ∈ visited ++ rest -> is_nan (timeDiff t s') = false) ->
    (visited ++ rest) !! i = Some closest ->
    (forall j s', visited !! j = Some s' ->
                  (timeDiff t s' <? timeDiff t closest) = false) ->
    (forall j s', (j < i)%nat -> (visited ++ rest) !! j = Some s' ->
                  (timeDiff t closest <? timeDiff t s') = true) ->
    exists i' s,
      (visited ++ rest) !! i' = Some s /\
      scan t rest closest (timeDiff t closest) = s /\
      (forall j s', (visited ++ rest) !! j = Some s' ->
                    (timeDiff t s' <? timeDiff t s) = false) /\
      (forall j s', (j < i')%nat -> (visited ++ rest) !! j = Some s' ->
                    (timeDiff t s <? timeDiff t s') = true).
Proof.
  induction rest as [|sample rest IH];
    intros visited closest i Hnan Hi Hmin Hstrict.
  - exists i, closest. rewrite app_nil_r in *. auto.
  - cbn [scan].
    replace (visited ++ sample :: rest) with ((visited ++ [sample]) ++ rest) in *
      by (rewrite <- app_assoc; reflexivity).
    assert (Hvisited : forall j s', visited !! j = Some s' ->
                                    is_nan (timeDiff t s') = false).
    { intros j s' Hj. apply Hnan. apply list_elem_of_lookup. exists j.
      rewrite <- app_assoc. now apply lookup_app_l_Some. }
    destruct (timeDiff t sample <? timeDiff t closest) eqn:Hlt.
    + apply (IH (visited ++ [sample]) sample (length visited)); [exact Hnan|..].
      * rewrite lookup_app_l by (rewrite length_app; cbn; lia).
        rewrite lookup_app_r by lia. now rewrite Nat.sub_diag.
      * intros j s' Hj. apply lookup_app_Some in Hj as [Hj|[_ Hj]].
        -- specialize (Hmin j s' Hj).
           destruct (timeDiff t s' <? timeDiff t sample) eqn:Hlt'; [|reflexivity].
           rewrite (ltb_trans _ _ _ Hlt' Hlt) in Hmin. discriminate.
        -- apply list_lookup_singleton_Some in Hj as [_ <-]. apply ltb_irrefl.
      * intros j s' Hlen Hj.
        rewrite lookup_app_l in Hj by (rewrite length_app; cbn; lia).
        rewrite lookup_app_l in Hj by lia.
        apply (ltb_below _ _ _ Hlt (Hmin j s' Hj)). eauto.
    + apply (IH (visited ++ [sample]) closest i); auto.
      intros j s' Hj. apply lookup_app_Some in Hj as [Hj|[_ Hj]].
      * eauto.
      * apply list_lookup_singleton_Some in Hj as [_ <-]. exact Hlt.
Qed.

(** The sample the loop ends on, by its index. *)
Lemma nearest_sample64 (first : TrajectorySample) (rest : list TrajectorySample)
    (t : float) :
  (forall s', s' ∈ first :: rest -> is_nan (timeDiff t s') = false) ->
  exists i s,
    (first :: rest) !! i = Some s /\
    getPositionAtTime (Some (first :: rest)) t = Some (position s) /\
    (forall j s', (first :: rest) !! j = Some s' ->
                  (timeDiff t s' <? timeDiff t s) = false) /\
    (forall j s', (j < i)%nat -> (first :: rest) !! j = Some s' ->
                  (timeDiff t s <? timeDiff t s') = true).
Proof.
  intros Hnan.
  destruct (scan_first_minimum64 t (first :: rest) [] first 0)
    as (i & s & Hi & Hscan & Hmin & Hstrict).
  - exact Hnan.
  - reflexivity.
  - intros j s' Hj. now rewrite lookup_nil in Hj.
  - intros j s' Hj. lia.
  - exists i, s. cbn [app] in *. repeat split; auto.
    unfold getPositionAtTime. do 2 f_equal. exact Hscan.
Qed.

(** C1: on a non-empty trajectory none of whose computed time distances
    Math.abs(sample.time - t) is NaN, getPositionAtTime returns the
    position of the earliest sample whose computed distance, a double, is
    minimal over the whole trajectory: none is smaller and every earlier
    sample has a greater one; and when some sample has time exactly t, the
    sample returned has time t as well. *)
Theorem getPositionAtTime_first_nearest
    (trajectory : list TrajectorySample) (t : float) :
  trajectory <> [] ->
  (forall s', s' ∈ trajectory -> is_nan (timeDiff t s') = false) ->
  exists i s,
    trajectory !! i = Some s /\
    getPositionAtTime (Some trajectory) t = Some (position s) /\
    (forall j s', trajectory !! j = Some s' ->
                  (timeDiff t s <=? timeDiff t s') = true) /\
    (forall j s', (j < i)%nat -> trajectory !! j = Some s' ->
                  (timeDiff t s <? timeDiff t s') = true) /\
    ((exists s0, s0 ∈ trajectory /\ (time s0 =? t) = true) ->
     (time s =? t) = true).
Proof.
  intros Hne Hnan. destruct trajectory as [|first rest]; [congruence|].
  destruct (nearest_sample64 first rest t Hnan) as (i & s & Hi & Hres & Hmin & Hstrict).
  assert (Hs : is_nan (timeDiff t s) = false).
  { apply Hnan. apply list_elem_of_lookup. eauto. }
  exists i, s. repeat split; auto.
  - intros j s' Hj. apply leb_not_ltb; eauto.
    apply Hnan. apply list_elem_of_lookup. eauto.
  - intros (s0 & Hin & Ht).
    destruct (timeDiff_equal t s0 (Hnan s0 Hin) Ht) as [z Hz].
    apply list_elem_of_lookup in Hin as [j Hj].
    specialize (Hmin j s0 Hj). rewrite FloatAxioms.ltb_spec, Hz in Hmin.
    apply is_nan_spec in Hs.
    revert Hmin Hs. pose proof (timeDiff_zero t s) as Hzero. revert Hzero.
    unfold timeDiff. rewrite FloatAxioms.abs_spec. intros Hzero Hmin Hs.
    destruct (SFabs_not_above_zero
                (Prim2SF (time s - t)) z) as [z' Hz'].
    + intros H. apply Hs. now rewrite H.
    + exact Hmin.
    + apply (Hzero false). now rewrite Hz'.
Qed.

Lemma getPositionAtTime_first_nearest_witness :
  exists i s,
    Demo.revisited64 !! i = Some s /\
    getPositionAtTime (Some Demo.revisited64) 7 = Some (position s) /\
    (forall j s', Demo.revisited64 !! j = Some s' ->
                  (timeDiff 7 s <=? timeDiff 7 s') = true) /\
    (forall j s', (j < i)%nat -> Demo.revisited64 !! j = Some s' ->
                  (timeDiff 7 s <? timeDiff 7 s') = true) /\
    ((exists s0, s0 ∈ Demo.revisited64 /\ (time s0 =? 7) = true) ->
     (time s =? 7) = true).
Proof.
  apply (getPositionAtTime_first_nearest Demo.revisited64 7).
  - unfold Demo.revisited64. discriminate.
  - intros s' Hin. unfold Demo.revisited64 in Hin.
    repeat (apply elem_of_cons in Hin as [->|Hin]; [vm_compute; reflexivity|]).
    now apply elem_of_nil in Hin.
Defined.

(** With the query time 2^53 the samples at times -1 and 0 have the
    computed distance 2^53 both, and with the query time 1 the samples at
    times 0 and 1e-17 have the computed distance 1 both: the first sample
    is returned, though the second is strictly nearer in exact
    arithmetic. *)
Lemma getPositionAtTime_rounding_tie :
  (getPositionAtTime (Some Demo.farPair) 9007199254740992
   = Some (mkPosition 0 0 0) /\
   exactlyNearer 0 (-1) 9007199254740992) /\
  (getPositionAtTime (Some Demo.closePair) 1 = Some (mkPosition 0 0 0) /\
   exactlyNearer 1e-17 0 1) /\
  mkPosition 0 0 0 <> mkPosition 1 1 1.
Proof.
  repeat split; try (vm_compute; reflexivity).
  intros H. apply (f_equal (fun p => Prim2SF (pos_x p))) in H.
  vm_compute in H. discriminate.
Qed.

(** X3: If the computed distance of one sample is smaller, as doubles
    compare, than that of every other sample, that sample's position is
    returned, wherever it stands in the trajectory. *)
Theorem getPositionAtTime_strictly_nearest
    (trajectory : list TrajectorySample) (t : float) (k : nat)
    (s : TrajectorySample) :
  trajectory !! k = Some s ->
  (forall j s', j <> k -> trajectory !! j = Some s' ->
                (timeDiff t s <? timeDiff t s') = true) ->
  getPositionAtTime (Some trajectory) t = Some (position s).
Proof.
  intros Hk Hbest. destruct trajectory as [|first rest].
  { now rewrite lookup_nil in Hk. }
  destruct rest as [|second rest].
  { destruct k as [|k]; [|now rewrite lookup_cons, lookup_nil in Hk].
    injection Hk as ->. cbn. now rewrite ltb_irrefl. }
  assert (Hnan : forall s', s' ∈ first :: second :: rest ->
                            is_nan (timeDiff t s') = false).
  { intros s' Hin. apply list_elem_of_lookup in Hin as [j Hj].
    destruct (decide (j = k)) as [->|Hne].
    - assert (s' = s) as -> by congruence.
      destruct k as [|k].
      + apply (ltb_numbers _ _ (Hbest 1%nat second ltac:(lia) eq_refl)).
      + apply (ltb_numbers _ _ (Hbest 0%nat first ltac:(lia) eq_refl)).
    - apply (ltb_numbers _ _ (Hbest j s' Hne Hj)). }
  destruct (nearest_sample64 first (second :: rest) t Hnan)
    as (i & si & Hi & Hres & Hmin & _).
  rewrite Hres. destruct (decide (i = k)) as [->|Hne].
  - congruence.
  - specialize (Hbest i si Hne Hi). specialize (Hmin k s Hk). congruence.
Qed.

Lemma getPositionAtTime_strictly_nearest_witness :
  getPositionAtTime (Some Demo.revisited64) 3 = Some (mkPosition 2 2 2).
Proof.
  apply (getPositionAtTime_strictly_nearest Demo.revisited64 3 2
           (mkSample 4 (mkPosition 2 2 2))).
  - reflexivity.
  - intros [|[|[|[|j]]]] s' Hne Hj; try congruence;
      cbn in Hj; try discriminate; injection Hj as <-; vm_compute; reflexivity.
Defined.


End Binary64Facts.

Module HandlerFacts.

(** *** [loadScenario] *)

(** What a load of a known key sets, and what it leaves. *)
Lemma loadScenario_known key data scenario s :
  data !! key = Some scenario ->
  let s' := loadScenario key data s in
  primaryMission s' = Some (primary scenario) /\
  otherMissions s' = others scenario /\
  selectedScenario s' = key /\
  verificationResult s' = None /\
  currentTime s' = 0%Q /\
  isPlaying s' = false /\
  trajectories s' = trajectories s.
Proof. intros H. unfold loadScenario. rewrite H. cbn. repeat split. Qed.

Lemma loadScenario_unknown key data s :
  data !! key = None -> loadScenario key data s = s.
Proof. intros H. unfold loadScenario. now rewrite H. Qed.

(** C4: loading a scenario resets the missions, the verification result and
    the clock, but not the trajectory map: after the conflict scenario has
    been verified, loading the clear scenario leaves the trajectories of
    PRIMARY and DRONE_A of the conflict scenario in the map. *)
Theorem loadScenario_keeps_trajectories :
  let before :=
    run [ScenariosResponse (Demo.catalog (mkTimeWindow 0 5));
         ClickVerify Demo.online] initialState in
  let after := step ClickClearScenario before in
  otherMissions after = [Demo.droneB] /\
  verificationResult after = None /\
  currentTime after = 0%Q /\
  isPlaying after = false /\
  trajectories after !! "DRONE_A" = Some (Some Demo.sampled) /\
  trajectories after !! "PRIMARY" = Some (Some Demo.sampled) /\
  trajectories after = trajectories before.
Proof. cbv zeta. repeat apply conj; vm_compute; reflexivity. Qed.

(** *** [verifyMission] *)

(** C10: if no primary mission is loaded or there are no other missions,
    verifyMission returns at once: no request is sent (no effect at all)
    and the state is the one it was called in. *)
Theorem verifyMission_guard (api : Backend) (s : AppState) :
  primaryMission s = None \/ otherMissions s = [] ->
  verifyMission api s = (s, []).
Proof.
  unfold verifyMission. intros [H|H]; rewrite H.
  - reflexivity.
  - now destruct (primaryMission s).
Qed.

Lemma verifyMission_guard_witness :
  verifyMission Demo.online initialState = (initialState, []).
Proof. apply verifyMission_guard. left. reflexivity. Defined.

(** X9: When the service cannot be reached, the one request sent is the
    verification request, the failure is logged and shown, and only the
    loading flag was touched: the state is the one before the call. *)
Lemma verifyMission_unreachable api s pm :
  primaryMission s = Some pm ->
  otherMissions s <> [] ->
  isLoading s = false ->
  verifyEndpoint api
    (VerifyRequest pm (otherMissions s) (useML s && mlAvailable s)) = None ->
  verifyMission api s
  = (s, [Fetch (VerifyRequest pm (otherMissions s) (useML s && mlAvailable s));
         ConsoleError; Alert]).
Proof.
  intros Hpm Hothers Hload Hfail. unfold verifyMission. rewrite Hpm.
  destruct (otherMissions s) as [|o rest] eqn:Ho; [congruence|].
  rewrite Hfail. f_equal.
  destruct s; cbn in *. now subst.
Qed.

(** A successful verification stores the result and the new trajectory
    map, and leaves the missions and the clock as they were. *)
Example verifyMission_online :
  let s := step (ScenariosResponse (Demo.catalog (mkTimeWindow 0 5)))
                initialState in
  fst (verifyMission Demo.online s)
  = setTrajectories
      (<["PRIMARY" := Some Demo.sampled]>
         (<["DRONE_A" := Some Demo.sampled]> ∅))
      (setVerificationResult (Some Demo.conflictFound) s).
Proof. vm_compute. reflexivity. Qed.

End HandlerFacts.

Module FetchFacts.

Section Loop.
Variable api : Backend.

(** The loop over missions that are all present: it completes normally,
    sends one request per mission, and the object it fills holds, under the
    identifier of each mission, the body answered to its request, or what
    it held before when the request failed; all other keys keep their
    value. *)
Lemma loadLoop_spec (missions : list Mission) :
  forall n (trajData : gmap string (option Trajectory)) log,
    NoDup (map mission_id missions) ->
    exists result log',
      loadLoop api n (map Some missions) trajData log = (Normal result, log') /\
      (forall j mission, missions !! j = Some mission ->
         result !! mission_id mission =
           match trajectoryEndpoint api (n + j) (requestFor mission) with
           | Some data => Some data
           | None => trajData !! mission_id mission
           end) /\
      (forall k, k ∉ map mission_id missions -> result !! k = trajData !! k) /\
      (forall e, e ∈ log -> e ∈ log') /\
      (forall mission, mission ∈ missions -> Fetch (requestFor mission) ∈ log').
Proof.
  induction missions as [|m rest IH]; intros n trajData log Hnd.
  - exists trajData, log. cbn. repeat split; auto.
    + intros j mission Hj. now rewrite lookup_nil in Hj.
    + intros mission Hin. now apply elem_of_nil in Hin.
  - cbn [map] in Hnd. apply NoDup_cons in Hnd as [Hfresh Hnd].
    cbn [map loadLoop]. fold (requestFor m).
    assert (Hids : forall j mission, rest !! j = Some mission ->
                                     mission_id m <> mission_id mission).
    { intros j mission Hj Heq. apply Hfresh. rewrite Heq.
      apply list_elem_of_fmap. exists mission. split; [done|].
      apply list_elem_of_lookup. eauto. }
    destruct (trajectoryEndpoint api n (requestFor m)) as [data|] eqn:Hresp.
    + destruct (IH (S n) (<[mission_id m := data]> trajData)
                   (log ++ [Fetch (requestFor m)]) Hnd)
        as (result & log' & Hrun & Hmis & Hother & Hlog & Hsent).
      exists result, log'. split; [exact Hrun|]. repeat split.
      * intros [|j] mission Hj; cbn in Hj.
        -- injection Hj as <-. rewrite Nat.add_0_r, Hresp.
           rewrite (Hother _ Hfresh). apply lookup_insert_eq.
        -- rewrite (Hmis j mission Hj).
           replace (n + S j) with (S n + j) by lia.
           destruct (trajectoryEndpoint api (S n + j) (requestFor mission));
             [reflexivity|].
           apply lookup_insert_ne. eauto.
      * intros k Hk. rewrite Hother.
        -- apply lookup_insert_ne. intros <-. apply Hk. cbn. left.
        -- intros Hin. apply Hk. cbn. now right.
      * intros e He. apply Hlog. apply elem_of_app. now left.
      * intros mission Hin. apply elem_of_cons in Hin as [->|Hin]; [|auto].
        apply Hlog. apply elem_of_app. right. left.
    + destruct (IH (S n) trajData
                   (log ++ [Fetch (requestFor m); ConsoleError]) Hnd)
        as (result & log' & Hrun & Hmis & Hother & Hlog & Hsent).
      exists result, log'. split; [exact Hrun|]. repeat split.
      * intros [|j] mission Hj; cbn in Hj.
        -- injection Hj as <-. rewrite Nat.add_0_r, Hresp.
           apply (Hother _ Hfresh).
        -- rewrite (Hmis j mission Hj).
           now replace (n + S j) with (S n + j) by lia.
      * intros k Hk. apply Hother.
        intros Hin. apply Hk. cbn. now right.
      * intros e He. apply Hlog. apply elem_of_app. now left.
      * intros mission Hin. apply elem_of_cons in Hin as [->|Hin]; [|auto].
        apply Hlog. apply elem_of_app. right. left.
Qed.

(** The keys of the object the loop fills, whatever the identifiers: a
    key is present at the end when it was present at the start or the
    request of a mission with that identifier succeeded. *)
Lemma loadLoop_dom (missions : list Mission) :
  forall n (trajData : gmap string (option Trajectory)) log,
    exists result log',
      loadLoop api n (map Some missions) trajData log = (Normal result, log') /\
      (forall k,
         is_Some (result !! k) <->
         is_Some (trajData !! k) \/
         exists j mission,
           missions !! j = Some mission /\ mission_id mission = k /\
           is_Some (trajectoryEndpoint api (n + j) (requestFor mission))) /\
      (forall mission, mission ∈ missions ->
         (forall e, e ∈ log -> e ∈ log') /\ Fetch (requestFor mission) ∈ log').
Proof.
  induction missions as [|m rest IH]; intros n trajData log.
  - exists trajData, log. split; [reflexivity|]. split.
    + intros k. split; [now left|].
      intros [H|(j & mission & Hj & _)]; [exact H|].
      now rewrite lookup_nil in Hj.
    + intros mission Hin. now apply elem_of_nil in Hin.
  - cbn [map loadLoop].
    destruct (trajectoryEndpoint api n (requestFor m)) as [data|] eqn:Hresp.
    + destruct (IH (S n) (<[mission_id m := data]> trajData)
                   (log ++ [Fetch (requestFor m)]))
        as (result & log' & Hrun & Hdom & Hlog).
      exists result, log'. split; [exact Hrun|]. split.
      * intros k. rewrite Hdom, lookup_insert_is_Some. split.
        -- intros [[<-|[_ H]]|(j & mission & Hj & Hid & Hok)].
           ++ right. exists 0%nat, m. rewrite Nat.add_0_r, Hresp. eauto.
           ++ now left.
           ++ right. exists (S j), mission.
              replace (n + S j)%nat with (S n + j)%nat by lia. eauto.
        -- intros [H|([|j] & mission & Hj & Hid & Hok)].
           ++ left. destruct (decide (mission_id m = k)); [now left|now right].
           ++ cbn in Hj. injection Hj as <-. left. now left.
           ++ right. exists j, mission.
              replace (S n + j)%nat with (n + S j)%nat by lia. eauto.
      * intros mission Hin.
        assert (Hkeep : forall e, e ∈ log -> e ∈ log').
        { intros e He. destruct rest as [|m' rest'].
          - cbn in Hrun. injection Hrun as _ <-. apply elem_of_app. now left.
          - apply (Hlog m'); [left|]. apply elem_of_app. now left. }
        split; [exact Hkeep|].
        apply elem_of_cons in Hin as [->|Hin]; [|now apply Hlog].
        destruct rest as [|m' rest'].
        -- cbn in Hrun. injection Hrun as _ <-. apply elem_of_app. right. left.
        -- apply (Hlog m'); [left|]. apply elem_of_app. right. left.
    + destruct (IH (S n) trajData (log ++ [Fetch (requestFor m); ConsoleError]))
        as (result & log' & Hrun & Hdom & Hlog).
      exists result, log'. split; [exact Hrun|]. split.
      * intros k. rewrite Hdom. split.
        -- intros [H|(j & mission & Hj & Hid & Hok)]; [now left|].
           right. exists (S j), mission.
           replace (n + S j)%nat with (S n + j)%nat by lia. eauto.
        -- intros [H|([|j] & mission & Hj & Hid & Hok)]; [now left| |].
           ++ cbn in Hj. injection Hj as <-.
              rewrite Nat.add_0_r, Hresp in Hok. now destruct Hok.
           ++ right. exists j, mission.
              replace (S n + j)%nat with (n + S j)%nat by lia. eauto.
      * intros mission Hin.
        assert (Hkeep : forall e, e ∈ log -> e ∈ log').
        { intros e He. destruct rest as [|m' rest'].
          - cbn in Hrun. injection Hrun as _ <-. apply elem_of_app. now left.
          - apply (Hlog m'); [left|]. apply elem_of_app. now left. }
        split; [exact Hkeep|].
        apply elem_of_cons in Hin as [->|Hin]; [|now apply Hlog].
        destruct rest as [|m' rest'].
        -- cbn in Hrun. injection Hrun as _ <-. apply elem_of_app. right. left.
        -- apply (Hlog m'); [left|]. apply elem_of_app. right. left.
Qed.

End Loop.

(** C8: when trajectories are loaded for the primary mission and the
    others, the batch always completes and a request is sent for every
    mission, whichever requests fail; the new state is the old one with
    its trajectory map replaced; the new map has an entry under an
    identifier exactly when the request of some mission with that
    identifier succeeded, whatever the previous map held; and when the
    identifiers of the missions are pairwise different, the entry under
    the identifier of a mission is what was answered to its request: the
    trajectory when it succeeded, no entry when it failed. *)
Theorem loadTrajectories_failure_policy
    (api : Backend) (s : AppState) (pm : Mission) :
  primaryMission s = Some pm ->
  exists s' log,
    loadTrajectories api s = (Normal s', log) /\
    s' = setTrajectories (trajectories s') s /\
    (forall mission, mission ∈ pm :: otherMissions s ->
       Fetch (requestFor mission) ∈ log) /\
    (forall k,
       is_Some (trajectories s' !! k) <->
       exists n mission,
         (pm :: otherMissions s) !! n = Some mission /\
         mission_id mission = k /\
         is_Some (trajectoryEndpoint api n (requestFor mission))) /\
    (NoDup (map mission_id (pm :: otherMissions s)) ->
     forall n mission,
       (pm :: otherMissions s) !! n = Some mission ->
       trajectories s' !! mission_id mission
       = trajectoryEndpoint api n (requestFor mission)).
Proof.
  intros Hpm.
  destruct (loadLoop_dom api (pm :: otherMissions s) 0 ∅ [])
    as (result & log & Hrun & Hdom & Hsent).
  exists (setTrajectories result s), log.
  split; [|split; [reflexivity|split; [intros m Hin; apply (Hsent m Hin)|split]]].
  - unfold loadTrajectories, allMissions. rewrite Hpm.
    cbn [map] in Hrun. now rewrite Hrun.
  - intros k. cbn [trajectories setTrajectories]. rewrite Hdom. split.
    + intros [Hold|H]; [|exact H].
      rewrite lookup_empty in Hold. now destruct Hold.
    + intros H. now right.
  - intros Hnd n mission Hn. cbn [trajectories setTrajectories].
    destruct (loadLoop_spec api (pm :: otherMissions s) 0 ∅ [] Hnd)
      as (result' & log' & Hrun' & Hmis & _).
    assert (result' = result) as -> by congruence.
    rewrite (Hmis n mission Hn). cbn [Nat.add].
    destruct (trajectoryEndpoint api n (requestFor mission)); [reflexivity|].
    apply lookup_empty.
Qed.

(** The first request of the batch fails, the second succeeds; the previous
    map had an entry under a key of neither mission. *)
Lemma loadTrajectories_failure_policy_witness :
  let s := setTrajectories {[ "OLD" := Some [] ]}
             (step (ScenariosResponse (Demo.catalog (mkTimeWindow 0 5)))
                   initialState) in
  let pm := Demo.primaryOf (mkTimeWindow 0 5) in
  exists s' log,
    loadTrajectories Demo.flaky s = (Normal s', log) /\
    s' = setTrajectories (trajectories s') s /\
    (forall mission, mission ∈ pm :: otherMissions s ->
       Fetch (requestFor mission) ∈ log) /\
    (forall k,
       is_Some (trajectories s' !! k) <->
       exists n mission,
         (pm :: otherMissions s) !! n = Some mission /\
         mission_id mission = k /\
         is_Some (trajectoryEndpoint Demo.flaky n (requestFor mission))) /\
    (forall n mission,
       (pm :: otherMissions s) !! n = Some mission ->
       trajectories s' !! mission_id mission
       = trajectoryEndpoint Demo.flaky n (requestFor mission)).
Proof.
  cbv zeta.
  destruct (loadTrajectories_failure_policy Demo.flaky
              (setTrajectories {[ "OLD" := Some [] ]}
                 (step (ScenariosResponse (Demo.catalog (mkTimeWindow 0 5)))
                       initialState))
              (Demo.primaryOf (mkTimeWindow 0 5)) eq_refl)
    as (s' & log & Hrun & Hframe & Hsent & Hdom & Hunique).
  exists s', log. repeat (split; [assumption|]).
  apply Hunique. cbn. apply NoDup_cons. split.
  - intros Hin. apply list_elem_of_singleton in Hin. discriminate.
  - apply NoDup_singleton.
Defined.

(** Two missions under the identifier PRIMARY: when the request of the
    first fails and that of the second succeeds, the failed mission has an
    entry all the same; and when both succeed, the two missions have one
    entry between them. *)
Lemma loadTrajectories_shared_identifier :
  (let s' := setTrajectories {[ "PRIMARY" := Some Demo.sampled ]} Demo.twinned in
   fst (loadTrajectories Demo.flaky Demo.twinned) = Normal s' /\
   primaryMission Demo.twinned = Some (Demo.primaryOf (mkTimeWindow 0 5)) /\
   trajectoryEndpoint Demo.flaky 0
     (requestFor (Demo.primaryOf (mkTimeWindow 0 5))) = None /\
   is_Some (trajectories s' !! mission_id (Demo.primaryOf (mkTimeWindow 0 5)))) /\
  (let s' := setTrajectories {[ "PRIMARY" := Some [] ]} Demo.twinned in
   fst (loadTrajectories Demo.byTurns Demo.twinned) = Normal s' /\
   is_Some (trajectoryEndpoint Demo.byTurns 0
              (requestFor (Demo.primaryOf (mkTimeWindow 0 5)))) /\
   is_Some (trajectoryEndpoint Demo.byTurns 1 (requestFor Demo.twin)) /\
   size (trajectories s') = 1%nat).
Proof.
  cbv zeta. repeat split; try (vm_compute; reflexivity); vm_compute; eauto.
Qed.

(** The same batch, computed: the failed mission has no entry and the
    entry of the previous map is gone. *)
Example loadTrajectories_flaky :
  let s := setTrajectories {[ "OLD" := Some [] ]}
             (step (ScenariosResponse (Demo.catalog (mkTimeWindow 0 5)))
                   initialState) in
  loadTrajectories Demo.flaky s
  = (Normal (setTrajectories {[ "DRONE_A" := Some Demo.sampled ]} s),
     [Fetch (requestFor (Demo.primaryOf (mkTimeWindow 0 5))); ConsoleError;
      Fetch (requestFor Demo.droneA)]).
Proof. vm_compute. reflexivity. Qed.

End FetchFacts.

Module ClockFacts.
Import ClockInvariant.
Open Scope Q_scope.

Lemma Qle_bool_true a b : Qle_bool a b = true <-> a <= b.
Proof. apply Qle_bool_iff. Qed.

Lemma Qle_bool_false a b : Qle_bool a b = false <-> b < a.
Proof.
  split.
  - intros H. apply Qnot_le_lt. intros Hle.
    apply Qle_bool_iff in Hle. congruence.
  - intros H. destruct (Qle_bool a b) eqn:E; [|reflexivity].
    apply Qle_bool_iff in E. qlra.
Qed.

(** *** One tick *)

(** C2: while Playing with a primary mission loaded, a tick at a time below
    timeWindow.end increments the time by exactly 1 and leaves the clock
    Playing, also when the new time reaches or exceeds end; a tick at a
    time that has reached or passed end sets the time to end and stops the
    clock.  No other part of the state changes. *)
Theorem tick_playing (s : AppState) (pm : Mission) :
  isPlaying s = true ->
  primaryMission s = Some pm ->
  (currentTime s < tw_end (timeWindow pm) ->
     tick s = setCurrentTime (currentTime s + 1) s /\
     currentTime (tick s) = currentTime s + 1 /\
     isPlaying (tick s) = true) /\
  (tw_end (timeWindow pm) <= currentTime s ->
     tick s = setCurrentTime (tw_end (timeWindow pm)) (setIsPlaying false s) /\
     currentTime (tick s) = tw_end (timeWindow pm) /\
     isPlaying (tick s) = false).
Proof.
  intros Hplay Hpm. unfold tick. rewrite Hplay, Hpm. split; intros H.
  - apply Qle_bool_false in H. rewrite H. cbn. auto.
  - apply Qle_bool_true in H. rewrite H. cbn. auto.
Qed.

Lemma tick_idle (s : AppState) :
  isPlaying s = false \/ primaryMission s = None -> tick s = s.
Proof.
  unfold tick. intros [H|H]; rewrite H; [reflexivity|].
  now destruct (isPlaying s).
Qed.

(** *** The invariant *)

Lemma clockInv_time_zero (s' : AppState) :
  currentTime s' = 0 -> clockInv s'.
Proof.
  intros H. unfold clockInv. rewrite H.
  destruct (primaryMission s'); [|reflexivity].
  right. exists 0%nat. split; [reflexivity|now left].
Qed.

Lemma clockInv_same_clock (s s' : AppState) :
  primaryMission s' = primaryMission s ->
  currentTime s' = currentTime s ->
  clockInv s -> clockInv s'.
Proof. unfold clockInv. now intros -> ->. Qed.

Lemma clockInv_loadScenario key data s :
  clockInv s -> clockInv (loadScenario key data s).
Proof.
  intros H. unfold loadScenario. destruct (data !! key); [|exact H].
  now apply clockInv_time_zero.
Qed.

Lemma verifyMission_clock api s :
  primaryMission (fst (verifyMission api s)) = primaryMission s /\
  currentTime (fst (verifyMission api s)) = currentTime s.
Proof.
  unfold verifyMission.
  destruct (primaryMission s) as [pm|] eqn:Hpm; [|now split].
  destruct (otherMissions s); [now split|].
  destruct (verifyEndpoint api _); [|now split].
  unfold loadTrajectories.
  destruct (loadLoop api 0 _ ∅ []) as [[trajData|] log]; now split.
Qed.

Lemma clockInv_tick s : clockInv s -> clockInv (tick s).
Proof.
  intros H. unfold tick.
  destruct (isPlaying s); [|exact H].
  destruct (primaryMission s) as [pm|] eqn:Hpm; [|exact H].
  unfold clockInv in *. rewrite Hpm in H.
  destruct (Qle_bool (tw_end (timeWindow pm)) (currentTime s)) eqn:Hcmp; cbn;
    rewrite Hpm.
  - left. reflexivity.
  - apply Qle_bool_false in Hcmp. destruct H as [H|(n & Hn & _)].
    + qlra.
    + right. exists (S n). split.
      * rewrite Nat2Z.inj_succ, <- Z.add_1_r, inject_Z_plus, Hn. reflexivity.
      * right. rewrite Nat2Z.inj_succ, <- Z.add_1_r, inject_Z_plus.
        rewrite <- Hn. change (inject_Z 1) with 1. qlra.
Qed.

Lemma clockInv_step e s : clockInv s -> clockInv (step e s).
Proof.
  intros H. destruct e; cbn [step].
  - exact H.
  - apply clockInv_loadScenario. exact H.
  - apply clockInv_loadScenario. exact H.
  - apply clockInv_loadScenario. exact H.
  - destruct (isLoading s); [exact H|].
    destruct (verifyMission_clock api s) as [Hp Ht].
    exact (clockInv_same_clock s _ Hp Ht H).
  - destruct (mlAvailable s); exact H.
  - unfold togglePlay. destruct (controlsVisible s); exact H.
  - unfold resetClock. destruct (controlsVisible s); [|exact H].
    now apply clockInv_time_zero.
  - destruct (controlsVisible s); exact H.
  - apply clockInv_tick. exact H.
Qed.

Lemma reachable_clockInv s : reachable s -> clockInv s.
Proof.
  induction 1 as [|e s _ IH].
  - reflexivity.
  - now apply clockInv_step.
Qed.

Lemma reachable_run events s : reachable s -> reachable (run events s).
Proof.
  revert s. induction events as [|e events IH]; intros s H; cbn.
  - exact H.
  - apply IH. now constructor.
Qed.

(** The bounds the invariant gives when the window ends at or after 0. *)
Lemma clockInv_bounds s pm :
  clockInv s -> primaryMission s = Some pm -> 0 <= tw_end (timeWindow pm) ->
  0 <= currentTime s /\ currentTime s < tw_end (timeWindow pm) + 1.
Proof.
  unfold clockInv. intros H Hpm Hend. rewrite Hpm in H.
  destruct H as [H|(n & Hn & Hcase)].
  - rewrite H. split; qlra.
  - assert (0 <= inject_Z (Z.of_nat n)).
    { change 0 with (inject_Z 0). rewrite <- Zle_Qle. lia. }
    rewrite Hn. split; [assumption|].
    destruct Hcase as [->|Hlt]; [|qlra].
    change (inject_Z (Z.of_nat 0)) with 0. qlra.
Qed.

Lemma integer_bound (n : nat) (q : Q) :
  isInteger q -> inject_Z (Z.of_nat n) - 1 < q -> inject_Z (Z.of_nat n) <= q.
Proof.
  intros [k Hk] H. rewrite Hk in *.
  change 1 with (inject_Z 1) in H.
  unfold Qminus in H. rewrite <- inject_Z_opp, <- inject_Z_plus in H.
  rewrite <- Zlt_Qlt in H. rewrite <- Zle_Qle. lia.
Qed.

(** Without a primary mission no event changes the time. *)
Lemma step_no_primary e s :
  clockInv s -> primaryMission s = None ->
  currentTime (step e s) = currentTime s.
Proof.
  intros Hinv Hpm. unfold clockInv in Hinv. rewrite Hpm in Hinv.
  assert (Hload : forall key data s0,
             currentTime s0 = 0 -> currentTime (loadScenario key data s0) = 0).
  { intros key data s0 H0. unfold loadScenario.
    destruct (data !! key); [reflexivity|exact H0]. }
  destruct e; cbn [step].
  - reflexivity.
  - rewrite Hinv. now apply Hload.
  - rewrite Hinv. now apply Hload.
  - rewrite Hinv. now apply Hload.
  - destruct (isLoading s); [reflexivity|]. apply verifyMission_clock.
  - now destruct (mlAvailable s).
  - unfold togglePlay. now destruct (controlsVisible s).
  - unfold resetClock. destruct (controlsVisible s); [|reflexivity].
    now rewrite Hinv.
  - now destruct (controlsVisible s).
  - rewrite tick_idle; auto.
Qed.

(** C3: in every reachable state in which a primary mission is loaded whose
    timeWindow.end is an integer and at least 0, the simulated time
    satisfies 0 <= time <= end; and in a reachable state without a primary
    mission no event changes the time, so it never advances. *)
Theorem clock_bounds (s : AppState) :
  reachable s ->
  (forall pm,
     primaryMission s = Some pm ->
     0 <= tw_end (timeWindow pm) ->
     isInteger (tw_end (timeWindow pm)) ->
     0 <= currentTime s <= tw_end (timeWindow pm)) /\
  (primaryMission s = None ->
   forall e, currentTime (step e s) = currentTime s).
Proof.
  intros Hreach. apply reachable_clockInv in Hreach. split.
  - intros pm Hpm Hend Hint.
    destruct (clockInv_bounds s pm Hreach Hpm Hend) as [Hlo _].
    split; [exact Hlo|].
    unfold clockInv in Hreach. rewrite Hpm in Hreach.
    destruct Hreach as [H|(n & Hn & [->|Hlt])].
    + rewrite H. qlra.
    + rewrite Hn. exact Hend.
    + rewrite Hn. now apply integer_bound.
  - intros Hpm e. now apply step_no_primary.
Qed.

(** *** Concrete sessions *)

Lemma reachable_playing tw : reachable (Demo.playing tw).
Proof. apply reachable_run. constructor. Qed.

(** Window [0, 5], four ticks after Play: the time is 4, the next tick
    takes it to 5 and the one after stops the clock. *)
Lemma tick_playing_witness :
  let pm := Demo.primaryOf (mkTimeWindow 0 5) in
  let s4 := run [Tick; Tick; Tick; Tick] (Demo.playing (mkTimeWindow 0 5)) in
  let s5 := tick s4 in
  (tick s4 = setCurrentTime (currentTime s4 + 1) s4 /\
   currentTime (tick s4) = currentTime s4 + 1 /\
   isPlaying (tick s4) = true) /\
  (tick s5 = setCurrentTime (tw_end (timeWindow pm)) (setIsPlaying false s5) /\
   currentTime (tick s5) = tw_end (timeWindow pm) /\
   isPlaying (tick s5) = false).
Proof.
  intros pm s4 s5. split.
  - refine (proj1 (tick_playing s4 pm _ _) _).
    + vm_compute. reflexivity.
    + vm_compute. reflexivity.
    + vm_compute. reflexivity.
  - refine (proj2 (tick_playing s5 pm _ _) _).
    + vm_compute. reflexivity.
    + vm_compute. reflexivity.
    + vm_compute. discriminate.
Defined.

(** The tick on which the new time reaches the end of the window (4 to 5
    with end 5), or passes it (2 to 3 with end 5/2), neither clamps nor
    stops: the clock is still Playing after it, and with end 5/2 the time
    is 3. *)
Lemma tick_stops_one_tick_late :
  (let tw := mkTimeWindow 0 5 in
   let s := run [Tick; Tick; Tick; Tick] (Demo.playing tw) in
   reachable s /\ isPlaying s = true /\
   primaryMission s = Some (Demo.primaryOf tw) /\
   tw_end tw <= currentTime s + 1 /\
   isPlaying (tick s) = true /\
   isPlaying (tickAsSpecified s) = false) /\
  (let tw := mkTimeWindow 0 (5 # 2) in
   let s := run [Tick; Tick] (Demo.playing tw) in
   reachable s /\ isPlaying s = true /\
   primaryMission s = Some (Demo.primaryOf tw) /\
   tw_end tw <= currentTime s + 1 /\
   isPlaying (tick s) = true /\ currentTime (tick s) == 3 /\
   isPlaying (tickAsSpecified s) = false /\
   currentTime (tickAsSpecified s) == 5 # 2).
Proof.
  cbv zeta. split.
  - split; [apply reachable_run, reachable_playing|].
    repeat apply conj; vm_compute; (reflexivity || discriminate).
  - split; [apply reachable_run, reachable_playing|].
    repeat apply conj; vm_compute; (reflexivity || discriminate).
Qed.

Lemma clock_bounds_witness :
  let tw := mkTimeWindow 0 5 in
  let s := run [Tick; Tick; Tick; Tick; Tick; Tick; Tick] (Demo.playing tw) in
  0 <= currentTime s <= 5 /\
  (forall e, currentTime (step e initialState) = currentTime initialState).
Proof.
  cbv zeta. split.
  - apply (proj1 (clock_bounds _ (reachable_run _ _ (reachable_playing _)))
             (Demo.primaryOf (mkTimeWindow 0 5))).
    + vm_compute. reflexivity.
    + vm_compute. discriminate.
    + exists 5%Z. reflexivity.
  - apply (proj2 (clock_bounds initialState reachable_init)). reflexivity.
Defined.

(** With the window [-2, -1] the time is 0, above the end, as soon as the
    scenario is loaded; with the window [0, 5/2] the third tick after Play
    takes the time to 3, above the end. *)
Lemma clock_leaves_window :
  (let tw := mkTimeWindow (-2) (-1) in
   let s := step (ScenariosResponse (Demo.catalog tw)) initialState in
   reachable s /\ primaryMission s = Some (Demo.primaryOf tw) /\
   tw_start tw <= tw_end tw /\
   ~ (0 <= currentTime s <= tw_end tw)) /\
  (let tw := mkTimeWindow 0 (5 # 2) in
   let s := run [Tick; Tick; Tick] (Demo.playing tw) in
   reachable s /\ primaryMission s = Some (Demo.primaryOf tw) /\
   tw_start tw <= tw_end tw /\
   ~ (0 <= currentTime s <= tw_end tw)).
Proof.
  cbv zeta. split.
  - split; [apply reachable_step, reachable_init|].
    split; [vm_compute; reflexivity|].
    split; [vm_compute; discriminate|].
    intros [_ H]. vm_compute in H. now apply H.
  - split; [apply reachable_run, reachable_playing|].
    split; [vm_compute; reflexivity|].
    split; [vm_compute; discriminate|].
    intros [_ H]. vm_compute in H. now apply H.
Qed.

End ClockFacts.

Module SceneFacts.
Import Scene.

(** C9: the scene is a function of the time, the missions (primary and
    others), the trajectory map and the verification result alone: two
    states that agree on these give the same list of primitives, whatever
    their other cells hold.  The composer only reads the state; it returns
    no state. *)
Theorem render3DView_deterministic (s1 s2 : AppState) :
  currentTime s1 = currentTime s2 ->
  primaryMission s1 = primaryMission s2 ->
  otherMissions s1 = otherMissions s2 ->
  trajectories s1 = trajectories s2 ->
  verificationResult s1 = verificationResult s2 ->
  render3DView s1 = render3DView s2.
Proof.
  intros Ht Hp Ho Htr Hv. unfold render3DView.
  now rewrite Ht, Hp, Ho, Htr, Hv.
Qed.

(** Two states of one session that differ in [isPlaying], [view3D],
    [useML], [mlAvailable], [isLoading] and [selectedScenario]. *)
Lemma render3DView_deterministic_witness :
  let s1 := run [ScenariosResponse (Demo.catalog (mkTimeWindow 0 5));
                 ClickVerify Demo.online] initialState in
  let s2 := setSelectedScenario "clear"
              (setIsLoading true
                (setMLAvailable true
                  (setUseML true (setView3D false (setIsPlaying true s1))))) in
  render3DView s1 = render3DView s2.
Proof.
  cbv zeta. apply render3DView_deterministic; reflexivity.
Defined.

(** Without a primary mission nothing is drawn. *)
Lemma render3DView_no_primary s :
  primaryMission s = None -> render3DView s = None.
Proof. unfold render3DView. now intros ->. Qed.

(** A mission without an entry in the trajectory map, or whose entry is
    undefined or empty, has no marker. *)
Lemma renderDrone_absent trajectories t missionId color label :
  trajectories !! missionId = None \/
  trajectories !! missionId = Some None \/
  trajectories !! missionId = Some (Some []) ->
  renderDrone trajectories t missionId color label = None.
Proof. unfold renderDrone. now intros [->|[->| ->]]. Qed.

(** The conflict zones do not depend on the time. *)
Lemma conflictZones_length result :
  length (conflictZones (Some result)) = length (conflicts result).
Proof. unfold conflictZones. apply length_map. Qed.

End SceneFacts.

(** * Further properties of the component *)

Module SamplerMore.
Import Sampler SamplerFacts.
Open Scope Q_scope.

(** The sample the loop ends on, by its index. *)
Lemma nearest_sample (first : TrajectorySample) (rest : Trajectory) (t : Q) :
  exists i s,
    (first :: rest) !! i = Some s /\
    getPositionAtTime (Some (first :: rest)) t = Some (position s) /\
    (forall j s', (first :: rest) !! j = Some s' -> timeDiff t s <= timeDiff t s') /\
    (forall j s', (j < i)%nat -> (first :: rest) !! j = Some s' ->
                  timeDiff t s < timeDiff t s').
Proof.
  destruct (scan_first_minimum t (first :: rest) [] first 0)
    as (i & s & Hi & Hscan & Hmin & Hstrict).
  - reflexivity.
  - intros j s' Hj. now rewrite lookup_nil in Hj.
  - intros j s' Hj. lia.
  - exists i, s. cbn [app] in *. repeat split; auto.
    unfold getPositionAtTime. do 2 f_equal. exact Hscan.
Qed.

(** X4: Before the start: when no sample is earlier than the first one and the
    query time is at or before the first sample's time, the first position
    is returned. *)
Theorem getPositionAtTime_before_start
    (first : TrajectorySample) (rest : Trajectory) (t : Q) :
  (forall s', s' ∈ rest -> time first <= time s') ->
  t <= time first ->
  getPositionAtTime (Some (first :: rest)) t = Some (position first).
Proof.
  intros Hsorted Ht.
  destruct (nearest_sample first rest t) as (i & si & Hi & Hres & _ & Hstrict).
  rewrite Hres. destruct i as [|i].
  - cbn in Hi. congruence.
  - exfalso. specialize (Hstrict 0%nat first (Nat.lt_0_succ i) eq_refl).
    cbn in Hi. assert (Hin : si ∈ rest) by (apply list_elem_of_lookup; eauto).
    specialize (Hsorted si Hin). revert Hstrict. unfold timeDiff.
    apply Qabs_case; apply Qabs_case; intros; qlra.
Qed.

Lemma getPositionAtTime_before_start_witness :
  getPositionAtTime (Some Demo.sampled) (-3) = Some (mkPosition 0 0 50).
Proof.
  apply (getPositionAtTime_before_start
           (mkSample 0 (mkPosition 0 0 50))
           [mkSample 5 (mkPosition 100 100 50)] (-3)).
  - intros s' Hin. apply list_elem_of_singleton in Hin as ->. discriminate.
  - discriminate.
Defined.

End SamplerMore.

Module FetchMore.

Section Loop.
Variable api : Backend.

(** Missions that are all present never make the loop throw. *)
Lemma loadLoop_normal (missions : list Mission) :
  forall n trajData log,
    exists result log',
      loadLoop api n (map Some missions) trajData log = (Normal result, log').
Proof.
  induction missions as [|m rest IH]; intros n trajData log; cbn.
  - eauto.
  - destruct (trajectoryEndpoint api n (requestFor m)); apply IH.
Qed.

(** The requests the loop sends: one per mission, in the order of the
    missions, whatever the answers. *)
Lemma loadLoop_requests (missions : list Mission) :
  forall n trajData log,
    requestsOf (snd (loadLoop api n (map Some missions) trajData log))
    = requestsOf log ++ map requestFor missions.
Proof.
  unfold requestsOf.
  induction missions as [|m rest IH]; intros n trajData log; cbn.
  - now rewrite app_nil_r.
  - destruct (trajectoryEndpoint api n (requestFor m));
      rewrite IH, omap_app, <- app_assoc; reflexivity.
Qed.

Lemma loadLoop_no_alert (missions : list Mission) :
  forall n trajData log,
    Alert ∉ log ->
    Alert ∉ snd (loadLoop api n (map Some missions) trajData log).
Proof.
  induction missions as [|m rest IH]; intros n trajData log Hlog; cbn.
  - exact Hlog.
  - destruct (trajectoryEndpoint api n (requestFor m)); apply IH;
      rewrite elem_of_app; intros [H|H]; try (now apply Hlog);
      repeat (apply elem_of_cons in H as [H|H]; [discriminate|]);
      now apply elem_of_nil in H.
Qed.

(** A key keeps its value when every mission of that identifier fails. *)
Lemma loadLoop_untouched (missions : list Mission) (k : string) :
  forall n trajData log,
    (forall j m, missions !! j = Some m -> mission_id m = k ->
                 trajectoryEndpoint api (n + j) (requestFor m) = None) ->
    forall result log',
      loadLoop api n (map Some missions) trajData log = (Normal result, log') ->
      result !! k = trajData !! k.
Proof.
  induction missions as [|m rest IH]; intros n trajData log Hfail result log' Hrun;
    cbn in Hrun.
  - now injection Hrun as <- _.
  - assert (Hrest : forall j m', rest !! j = Some m' -> mission_id m' = k ->
                      trajectoryEndpoint api (S n + j) (requestFor m') = None).
    { intros j m' Hj Hid. specialize (Hfail (S j) m' Hj Hid).
      now replace (n + S j)%nat with (S n + j)%nat in Hfail by lia. }
    destruct (trajectoryEndpoint api n (requestFor m)) as [data|] eqn:Hresp.
    + rewrite (IH _ _ _ Hrest _ _ Hrun). apply lookup_insert_ne.
      intros Hid. specialize (Hfail 0%nat m eq_refl Hid).
      rewrite Nat.add_0_r in Hfail. congruence.
    + exact (IH _ _ _ Hrest _ _ Hrun).
Qed.

(** The entry of an identifier is the answer to the last mission of that
    identifier whose request succeeded. *)
Lemma loadLoop_last_success (missions : list Mission) :
  forall n trajData log j m data,
    missions !! j = Some m ->
    trajectoryEndpoint api (n + j) (requestFor m) = Some data ->
    (forall j' m', (j < j')%nat -> missions !! j' = Some m' ->
                   mission_id m' = mission_id m ->
                   trajectoryEndpoint api (n + j') (requestFor m') = None) ->
    forall result log',
      loadLoop api n (map Some missions) trajData log = (Normal result, log') ->
      result !! mission_id m = Some data.
Proof.
  induction missions as [|m0 rest IH];
    intros n trajData log j m data Hj Hok Hlater result log' Hrun.
  - now rewrite lookup_nil in Hj.
  - cbn in Hrun. destruct j as [|j].
    + cbn in Hj. injection Hj as ->. rewrite Nat.add_0_r in Hok.
      rewrite Hok in Hrun.
      erewrite loadLoop_untouched; [apply lookup_insert_eq| |exact Hrun].
      intros j' m' Hj' Hid. specialize (Hlater (S j') m' (Nat.lt_0_succ j') Hj' Hid).
      now replace (n + S j')%nat with (S n + j')%nat in Hlater by lia.
    + cbn in Hj.
      replace (n + S j)%nat with (S n + j)%nat in Hok by lia.
      assert (Hlater' : forall j' m', (j < j')%nat -> rest !! j' = Some m' ->
                mission_id m' = mission_id m ->
                trajectoryEndpoint api (S n + j') (requestFor m') = None).
      { intros j' m' Hlt Hj' Hid.
        specialize (Hlater (S j') m' (proj1 (Nat.succ_lt_mono j j') Hlt) Hj' Hid).
        now replace (n + S j')%nat with (S n + j')%nat in Hlater by lia. }
      destruct (trajectoryEndpoint api n (requestFor m0));
        exact (IH _ _ _ _ _ _ Hj Hok Hlater' _ _ Hrun).
Qed.

End Loop.

(** X6: With a primary mission loaded, loadTrajectories sends exactly one
    trajectory request per mission, the primary first and the others in
    their order, with 50 samples each, whichever requests fail, and shows
    no alert. *)
Theorem loadTrajectories_requests (api : Backend) (s : AppState) (pm : Mission) :
  primaryMission s = Some pm ->
  requestsOf (snd (loadTrajectories api s))
  = map (fun m => TrajectoryRequest (Some m) 50) (pm :: otherMissions s) /\
  Alert ∉ snd (loadTrajectories api s).
Proof.
  intros Hpm. unfold loadTrajectories, allMissions. rewrite Hpm.
  change (Some pm :: map Some (otherMissions s))
    with (map Some (pm :: otherMissions s)).
  pose proof (loadLoop_requests api (pm :: otherMissions s) 0 ∅ []) as Hreq.
  pose proof (loadLoop_no_alert api (pm :: otherMissions s) 0 ∅ []) as Hal.
  destruct (loadLoop api 0 (map Some (pm :: otherMissions s)) ∅ [])
    as [[trajData|] log]; cbn [snd] in *; (split; [exact Hreq|]);
    apply Hal; apply not_elem_of_nil.
Qed.

Lemma loadTrajectories_requests_witness :
  let s := step (ScenariosResponse (Demo.catalog (mkTimeWindow 0 5)))
                initialState in
  requestsOf (snd (loadTrajectories Demo.flaky s))
  = map (fun m => TrajectoryRequest (Some m) 50)
        (Demo.primaryOf (mkTimeWindow 0 5) :: otherMissions s) /\
  Alert ∉ snd (loadTrajectories Demo.flaky s).
Proof.
  cbv zeta. apply loadTrajectories_requests. reflexivity.
Defined.

(** X7: When several missions carry the same identifier, the entry under it is
    the trajectory answered to the last of them whose request succeeded. *)
Theorem loadTrajectories_last_success_wins
    (api : Backend) (s s' : AppState) (log : list Effect) (pm : Mission)
    (j : nat) (m : Mission) (data : option Trajectory) :
  primaryMission s = Some pm ->
  loadTrajectories api s = (Normal s', log) ->
  (pm :: otherMissions s) !! j = Some m ->
  trajectoryEndpoint api j (requestFor m) = Some data ->
  (forall j' m', (j < j')%nat -> (pm :: otherMissions s) !! j' = Some m' ->
                 mission_id m' = mission_id m ->
                 trajectoryEndpoint api j' (requestFor m') = None) ->
  trajectories s' !! mission_id m = Some data.
Proof.
  intros Hpm Hrun Hj Hok Hlater. unfold loadTrajectories, allMissions in Hrun.
  rewrite Hpm in Hrun.
  change (Some pm :: map Some (otherMissions s))
    with (map Some (pm :: otherMissions s)) in Hrun.
  destruct (loadLoop api 0 (map Some (pm :: otherMissions s)) ∅ [])
    as [[trajData|] log0] eqn:Hloop; [|discriminate].
  injection Hrun as <- <-. cbn [trajectories setTrajectories].
  exact (loadLoop_last_success api _ 0 ∅ [] j m data Hj Hok Hlater _ _ Hloop).
Qed.

Lemma loadTrajectories_last_success_wins_witness :
  trajectories (setTrajectories {[ "PRIMARY" := Some [] ]} Demo.twinned)
    !! "PRIMARY" = Some (Some []).
Proof.
  apply (loadTrajectories_last_success_wins Demo.byTurns Demo.twinned
           (setTrajectories {[ "PRIMARY" := Some [] ]} Demo.twinned)
           [Fetch (requestFor (Demo.primaryOf (mkTimeWindow 0 5)));
            Fetch (requestFor Demo.twin)]
           (Demo.primaryOf (mkTimeWindow 0 5)) 1 Demo.twin (Some [])).
  - reflexivity.
  - vm_compute. reflexivity.
  - reflexivity.
  - reflexivity.
  - intros [|[|j']] m' Hlt Hj' _; [lia|lia|]. cbn in Hj'. discriminate.
Defined.

End FetchMore.

Module HandlerMore.
Import HandlerFacts FetchMore.

(** X8: A load of a known key overrides an earlier load altogether: the state
    is the one the second load alone would give. *)
Theorem loadScenario_overrides (key1 key2 : string)
    (data1 data2 : gmap string Scenario) (s : AppState) :
  is_Some (data2 !! key2) ->
  loadScenario key2 data2 (loadScenario key1 data1 s) = loadScenario key2 data2 s.
Proof.
  intros [scenario H]. unfold loadScenario. rewrite H.
  now destruct (data1 !! key1).
Qed.

Lemma loadScenario_overrides_witness :
  let data := Demo.catalog (mkTimeWindow 0 5) in
  loadScenario "clear" data (loadScenario "conflict" data initialState)
  = loadScenario "clear" data initialState.
Proof.
  cbv zeta. apply loadScenario_overrides. eexists. vm_compute. reflexivity.
Defined.

Lemma verifyMission_unreachable_witness :
  let s := step (ScenariosResponse (Demo.catalog (mkTimeWindow 0 5)))
                initialState in
  verifyMission Demo.offline s
  = (s, [Fetch (VerifyRequest (Demo.primaryOf (mkTimeWindow 0 5))
                  (otherMissions s) (useML s && mlAvailable s));
         ConsoleError; Alert]).
Proof.
  cbv zeta. apply verifyMission_unreachable.
  - reflexivity.
  - vm_compute. discriminate.
  - reflexivity.
  - reflexivity.
Defined.

Lemma requestsOf_fetch (r : Request) (log : list Effect) :
  requestsOf (Fetch r :: log) = r :: requestsOf log.
Proof. reflexivity. Qed.

(** X10: When the verification request is answered, the result is stored, the
    trajectory map is replaced by the one the batch built, the loading
    flag ends cleared, no alert is shown even if trajectory requests fail,
    and the requests sent are the verification request followed by one
    trajectory request per mission. *)
Theorem verifyMission_answered (api : Backend) (s : AppState)
    (pm : Mission) (result : VerificationResult) :
  primaryMission s = Some pm ->
  otherMissions s <> [] ->
  verifyEndpoint api
    (VerifyRequest pm (otherMissions s) (useML s && mlAvailable s))
    = Some result ->
  exists trajData,
    fst (verifyMission api s)
    = setIsLoading false
        (setTrajectories trajData (setVerificationResult (Some result) s)) /\
    fst (loadTrajectories api s) = Normal (setTrajectories trajData s) /\
    requestsOf (snd (verifyMission api s))
    = VerifyRequest pm (otherMissions s) (useML s && mlAvailable s)
      :: map (fun m => TrajectoryRequest (Some m) 50) (pm :: otherMissions s) /\
    Alert ∉ snd (verifyMission api s).
Proof.
  intros Hpm Hothers Hok.
  pose proof (loadLoop_normal api (pm :: otherMissions s) 0 ∅ [])
    as (trajData & log & Hloop).
  pose proof (loadLoop_requests api (pm :: otherMissions s) 0 ∅ []) as Hreq.
  pose proof (loadLoop_no_alert api (pm :: otherMissions s) 0 ∅ []
                (not_elem_of_nil _)) as Hal.
  rewrite Hloop in Hreq, Hal. cbn [snd] in Hreq, Hal.
  exists trajData. unfold verifyMission, loadTrajectories, allMissions.
  rewrite Hpm. destruct (otherMissions s) as [|o rest] eqn:Ho; [congruence|].
  rewrite Hok. cbn [primaryMission otherMissions setVerificationResult setIsLoading].
  rewrite Hpm, Ho.
  change (Some pm :: map Some (o :: rest)) with (map Some (pm :: o :: rest)).
  rewrite Hloop. cbn [fst snd]. repeat split.
  - rewrite requestsOf_fetch, Hreq. reflexivity.
  - intros Hin. apply elem_of_cons in Hin as [Hin|Hin]; [discriminate|auto].
Qed.

Lemma verifyMission_answered_witness :
  let s := step (ScenariosResponse (Demo.catalog (mkTimeWindow 0 5)))
                initialState in
  let pm := Demo.primaryOf (mkTimeWindow 0 5) in
  exists trajData,
    fst (verifyMission Demo.flaky s)
    = setIsLoading false
        (setTrajectories trajData
           (setVerificationResult (Some Demo.conflictFound) s)) /\
    fst (loadTrajectories Demo.flaky s) = Normal (setTrajectories trajData s) /\
    requestsOf (snd (verifyMission Demo.flaky s))
    = VerifyRequest pm (otherMissions s) (useML s && mlAvailable s)
      :: map (fun m => TrajectoryRequest (Some m) 50) (pm :: otherMissions s) /\
    Alert ∉ snd (verifyMission Demo.flaky s).
Proof.
  cbv zeta. apply verifyMission_answered.
  - reflexivity.
  - vm_compute. discriminate.
  - reflexivity.
Defined.

End HandlerMore.

Module ClockMore.
Import ClockInvariant ClockFacts.
Open Scope Q_scope.

Lemma ticks_zero s : ticks 0 s = s.
Proof. reflexivity. Qed.

Lemma ticks_one s : ticks 1 s = tick s.
Proof. reflexivity. Qed.

Lemma ticks_succ n s : ticks (S n) s = ticks n (tick s).
Proof. unfold ticks. now rewrite Nat.iter_succ_r. Qed.

Lemma tick_primary s : primaryMission (tick s) = primaryMission s.
Proof.
  unfold tick. destruct (isPlaying s); [|reflexivity].
  destruct (primaryMission s) as [pm|] eqn:Hpm; [|exact Hpm].
  now destruct (Qle_bool _ _).
Qed.

Lemma tick_below s pm :
  isPlaying s = true -> primaryMission s = Some pm ->
  currentTime s < tw_end (timeWindow pm) ->
  tick s = setCurrentTime (currentTime s + 1) s.
Proof.
  intros Hplay Hpm H. unfold tick. rewrite Hplay, Hpm.
  apply Qle_bool_false in H. now rewrite H.
Qed.

Lemma tick_at_end s pm :
  isPlaying s = true -> primaryMission s = Some pm ->
  tw_end (timeWindow pm) <= currentTime s ->
  tick s = setCurrentTime (tw_end (timeWindow pm)) (setIsPlaying false s).
Proof.
  intros Hplay Hpm H. unfold tick. rewrite Hplay, Hpm.
  apply Qle_bool_true in H. now rewrite H.
Qed.

(** Playback stops within [m + 1] ticks when the end of the window is at
    most [m] away. *)
Lemma playback_stops_within (m : nat) :
  forall s pm,
    isPlaying s = true -> primaryMission s = Some pm ->
    tw_end (timeWindow pm) - currentTime s <= inject_Z (Z.of_nat m) ->
    exists n,
      isPlaying (ticks n s) = false /\
      currentTime (ticks n s) = tw_end (timeWindow pm) /\
      (forall k, (k < n)%nat -> isPlaying (ticks k s) = true).
Proof.
  assert (Hstop : forall s pm,
            isPlaying s = true -> primaryMission s = Some pm ->
            tw_end (timeWindow pm) <= currentTime s ->
            exists n,
              isPlaying (ticks n s) = false /\
              currentTime (ticks n s) = tw_end (timeWindow pm) /\
              (forall k, (k < n)%nat -> isPlaying (ticks k s) = true)).
  { intros s pm Hplay Hpm Hend. exists 1%nat. rewrite ticks_one.
    rewrite (tick_at_end s pm Hplay Hpm Hend). repeat split.
    intros k Hk. now replace k with 0%nat by lia. }
  induction m as [|m IH]; intros s pm Hplay Hpm Hgap.
  - apply Hstop; auto. change (inject_Z (Z.of_nat 0)) with 0 in Hgap. qlra.
  - destruct (Qlt_le_dec (currentTime s) (tw_end (timeWindow pm))) as [Hlt|Hge];
      [|now apply Hstop].
    pose proof (tick_below s pm Hplay Hpm Hlt) as Htick.
    destruct (IH (tick s) pm) as (n & Hoff & Htime & Hon).
    + now rewrite Htick.
    + now rewrite tick_primary.
    + rewrite Htick. cbn [currentTime setCurrentTime].
      rewrite Nat2Z.inj_succ, <- Z.add_1_r, inject_Z_plus in Hgap.
      change (inject_Z 1) with 1 in Hgap. qlra.
    + exists (S n). rewrite ticks_succ. repeat split; auto.
      intros [|k] Hk; [exact Hplay|]. rewrite ticks_succ. apply Hon. lia.
Qed.

(** X11: Playback always ends: from any Playing state with a primary mission,
    some number of ticks stops the clock with the time set to the end of
    the window, and the clock is Playing at every tick before. *)
Theorem playback_stops (s : AppState) (pm : Mission) :
  isPlaying s = true ->
  primaryMission s = Some pm ->
  exists n,
    isPlaying (ticks n s) = false /\
    currentTime (ticks n s) = tw_end (timeWindow pm) /\
    (forall k, (k < n)%nat -> isPlaying (ticks k s) = true).
Proof.
  intros Hplay Hpm.
  apply (playback_stops_within
           (Z.to_nat (Qceiling (tw_end (timeWindow pm) - currentTime s))));
    auto.
  pose proof (Qle_ceiling (tw_end (timeWindow pm) - currentTime s)) as Hc.
  eapply Qle_trans; [exact Hc|]. rewrite <- Zle_Qle. lia.
Qed.

Lemma playback_stops_witness :
  exists n,
    isPlaying (ticks n (Demo.playing (mkTimeWindow 0 (5 # 2)))) = false /\
    currentTime (ticks n (Demo.playing (mkTimeWindow 0 (5 # 2)))) = 5 # 2 /\
    (forall k, (k < n)%nat ->
               isPlaying (ticks k (Demo.playing (mkTimeWindow 0 (5 # 2)))) = true).
Proof.
  apply (playback_stops (Demo.playing (mkTimeWindow 0 (5 # 2)))
           (Demo.primaryOf (mkTimeWindow 0 (5 # 2)))).
  - vm_compute. reflexivity.
  - vm_compute. reflexivity.
Defined.

(** X12: The schedule of a playback: as long as [j] more units fit before the
    end of the window, [j] ticks advance the time by exactly [j] and leave
    the clock Playing; and when the time has reached the end exactly, the
    next tick stops the clock there. *)
Theorem playback_schedule (s : AppState) (pm : Mission) (j : nat) :
  isPlaying s = true ->
  primaryMission s = Some pm ->
  currentTime s + inject_Z (Z.of_nat j) <= tw_end (timeWindow pm) ->
  currentTime (ticks j s) == currentTime s + inject_Z (Z.of_nat j) /\
  isPlaying (ticks j s) = true /\
  (currentTime s + inject_Z (Z.of_nat j) == tw_end (timeWindow pm) ->
   isPlaying (ticks (S j) s) = false /\
   currentTime (ticks (S j) s) = tw_end (timeWindow pm)).
Proof.
  revert s. induction j as [|j IH]; intros s Hplay Hpm Hfit.
  - rewrite ticks_one, ticks_zero. change (inject_Z (Z.of_nat 0)) with 0 in *.
    split; [qlra|]. split; [exact Hplay|]. intros Heq.
    rewrite (tick_at_end s pm Hplay Hpm) by qlra. split; reflexivity.
  - rewrite Nat2Z.inj_succ, <- Z.add_1_r, inject_Z_plus in *.
    change (inject_Z 1) with 1 in *.
    assert (0 <= inject_Z (Z.of_nat j)).
    { change 0 with (inject_Z 0). rewrite <- Zle_Qle. lia. }
    assert (Hlt : currentTime s < tw_end (timeWindow pm)) by qlra.
    assert (Hts : currentTime (tick s) = currentTime s + 1).
    { now rewrite (tick_below s pm Hplay Hpm Hlt). }
    destruct (IH (tick s)) as (Htime & Hon & Hoff).
    + now rewrite (tick_below s pm Hplay Hpm Hlt).
    + now rewrite tick_primary.
    + rewrite Hts. qlra.
    + rewrite (ticks_succ j s), (ticks_succ (S j) s). rewrite Hts in Htime, Hoff.
      split; [rewrite Htime; qlra|]. split; [exact Hon|].
      intros Heq. apply Hoff. rewrite <- Heq. qlra.
Qed.

Lemma playback_schedule_witness :
  let s := Demo.playing (mkTimeWindow 0 5) in
  currentTime (ticks 5 s) == currentTime s + inject_Z (Z.of_nat 5) /\
  isPlaying (ticks 5 s) = true /\
  isPlaying (ticks 6 s) = false /\
  currentTime (ticks 6 s) = 5.
Proof.
  cbv zeta.
  destruct (playback_schedule (Demo.playing (mkTimeWindow 0 5))
              (Demo.primaryOf (mkTimeWindow 0 5)) 5)
    as (Htime & Hon & Hoff).
  - vm_compute. reflexivity.
  - vm_compute. reflexivity.
  - vm_compute. discriminate.
  - split; [exact Htime|]. split; [exact Hon|].
    apply Hoff. vm_compute. reflexivity.
Defined.

End ClockMore.

Module SessionMore.
Import Notions ClockInvariant ClockFacts ClockMore.
Open Scope Q_scope.

Lemma verifyMission_primary api s :
  primaryMission (fst (verifyMission api s)) = primaryMission s.
Proof. apply verifyMission_clock. Qed.

Lemma loadScenario_primary key data s :
  is_Some (primaryMission s) -> is_Some (primaryMission (loadScenario key data s)).
Proof.
  intros H. unfold loadScenario. destruct (data !! key); [eauto|exact H].
Qed.

Lemma step_keeps_primary e s :
  is_Some (primaryMission s) -> is_Some (primaryMission (step e s)).
Proof.
  intros H. destruct e; cbn [step].
  - exact H.
  - now apply loadScenario_primary.
  - now apply loadScenario_primary.
  - now apply loadScenario_primary.
  - destruct (isLoading s); [exact H|]. now rewrite verifyMission_primary.
  - now destruct (mlAvailable s).
  - unfold togglePlay. now destruct (controlsVisible s).
  - unfold resetClock. now destruct (controlsVisible s).
  - now destruct (controlsVisible s).
  - now rewrite tick_primary.
Qed.

(** X14: Once a primary mission is loaded, no sequence of events unloads it. *)
Theorem primary_stays_loaded (events : list Event) (s : AppState) :
  is_Some (primaryMission s) -> is_Some (primaryMission (run events s)).
Proof.
  revert s. induction events as [|e events IH]; intros s H; cbn.
  - exact H.
  - apply IH. now apply step_keeps_primary.
Qed.

Lemma primary_stays_loaded_witness :
  is_Some (primaryMission
             (run [ClickVerify Demo.flaky; ClickPlayPause; Tick; ClickReset;
                   ScenariosResponse ∅; ClickClearScenario]
                  (step (ScenariosResponse (Demo.catalog (mkTimeWindow 0 5)))
                        initialState))).
Proof. apply primary_stays_loaded. eexists. vm_compute. reflexivity. Defined.

(** Without a primary mission, an event loads one or leaves the clock
    stopped, the trajectory map and the verification result as they are. *)
Lemma step_without_primary e s :
  primaryMission s = None -> ~ needsPrimary s ->
  is_Some (primaryMission (step e s)) \/ ~ needsPrimary (step e s).
Proof.
  intros Hpm Hnot.
  assert (Hload : forall key data s0,
            ~ needsPrimary s0 ->
            is_Some (primaryMission (loadScenario key data s0)) \/
            ~ needsPrimary (loadScenario key data s0)).
  { intros key data s0 H0. unfold loadScenario.
    destruct (data !! key); [left; eauto|now right]. }
  assert (Hhidden : controlsVisible s = false).
  { destruct (controlsVisible s) eqn:E; [|reflexivity].
    exfalso. apply Hnot. right. now left. }
  destruct e; cbn [step].
  - now right.
  - now apply Hload.
  - now apply Hload.
  - now apply Hload.
  - right. destruct (isLoading s); [exact Hnot|].
    unfold verifyMission. now rewrite Hpm.
  - right. now destruct (mlAvailable s).
  - right. unfold togglePlay. now rewrite Hhidden.
  - right. unfold resetClock. now rewrite Hhidden.
  - right. now rewrite Hhidden.
  - right. rewrite tick_idle; auto.
Qed.

(** X15: In every reachable state in which the clock is Playing, the animation
    controls are visible (the trajectory map is not empty) or a
    verification result is stored, a primary mission is loaded. *)
Theorem reachable_needs_primary (s : AppState) :
  reachable s -> needsPrimary s -> is_Some (primaryMission s).
Proof.
  intros Hreach.
  enough (H : is_Some (primaryMission s) \/ ~ needsPrimary s) by tauto.
  induction Hreach as [|e s _ IH].
  - right. unfold needsPrimary. cbn. intros [H|[H|[x H]]]; discriminate.
  - destruct IH as [IH|IH].
    + left. now apply step_keeps_primary.
    + destruct (primaryMission s) eqn:Hpm.
      * left. apply step_keeps_primary. rewrite Hpm. eauto.
      * now apply step_without_primary.
Qed.

Lemma reachable_needs_primary_witness :
  is_Some (primaryMission (Demo.playing (mkTimeWindow 0 5))).
Proof.
  apply reachable_needs_primary.
  - apply reachable_playing.
  - left. vm_compute. reflexivity.
Defined.

(** X13: While the clock is stopped, or without a primary mission, ticks change
    nothing, however many. *)
Theorem ticks_idle (n : nat) (s : AppState) :
  isPlaying s = false \/ primaryMission s = None -> ticks n s = s.
Proof.
  intros H. induction n as [|n IH]; [reflexivity|].
  rewrite ticks_succ, tick_idle by exact H. exact IH.
Qed.

Lemma ticks_idle_witness :
  let s := step ClickPlayPause (ticks 2 (Demo.playing (mkTimeWindow 0 5))) in
  ticks 7 s = s.
Proof. cbv zeta. apply ticks_idle. left. vm_compute. reflexivity. Defined.

(** The bound of the invariant for a window that ends at an integer. *)
Lemma clockInv_within s pm :
  clockInv s -> primaryMission s = Some pm ->
  0 <= tw_end (timeWindow pm) -> isInteger (tw_end (timeWindow pm)) ->
  0 <= currentTime s <= tw_end (timeWindow pm).
Proof.
  intros Hinv Hpm Hend Hint.
  destruct (clockInv_bounds s pm Hinv Hpm Hend) as [Hlo _].
  split; [exact Hlo|].
  unfold clockInv in Hinv. rewrite Hpm in Hinv.
  destruct Hinv as [H|(n & Hn & [->|Hlt])].
  - rewrite H. qlra.
  - rewrite Hn. exact Hend.
  - rewrite Hn. now apply integer_bound.
Qed.

(** X16: In a reachable state whose primary mission has a window ending at an
    integer that is at least 0, a tick never moves the time backwards, and
    moves it forwards by at most 1. *)
Theorem tick_monotone (s : AppState) (pm : Mission) :
  reachable s ->
  primaryMission s = Some pm ->
  0 <= tw_end (timeWindow pm) ->
  isInteger (tw_end (timeWindow pm)) ->
  currentTime s <= currentTime (tick s) <= currentTime s + 1.
Proof.
  intros Hreach Hpm Hend Hint.
  destruct (clockInv_within s pm (reachable_clockInv s Hreach) Hpm Hend Hint)
    as [_ Hhi].
  destruct (isPlaying s) eqn:Hplay.
  - destruct (Qlt_le_dec (currentTime s) (tw_end (timeWindow pm))) as [Hlt|Hge].
    + rewrite (tick_below s pm Hplay Hpm Hlt). cbn. split; qlra.
    + rewrite (tick_at_end s pm Hplay Hpm Hge). cbn. split; qlra.
  - rewrite tick_idle by now left. split; qlra.
Qed.

Lemma tick_monotone_witness :
  let s := ticks 5 (Demo.playing (mkTimeWindow 0 5)) in
  currentTime s <= currentTime (tick s) <= currentTime s + 1.
Proof.
  cbv zeta.
  apply (tick_monotone _ (Demo.primaryOf (mkTimeWindow 0 5))).
  - change (ticks 5 ?s) with (run [Tick; Tick; Tick; Tick; Tick] s).
    apply reachable_run, reachable_playing.
  - vm_compute. reflexivity.
  - vm_compute. discriminate.
  - exists 5%Z. reflexivity.
Defined.

End SessionMore.

Module PanelMore.
Import Panel ClockInvariant ClockFacts SessionMore.


Open Scope Q_scope.

(** X18: In a reachable state whose primary mission has a window ending at a
    positive integer, the time bar is between 0 and 100 percent wide, and
    it is full exactly when the time is the end of the window. *)
Theorem progressPercent_range (s : AppState) (pm : Mission) :
  reachable s ->
  primaryMission s = Some pm ->
  0 < tw_end (timeWindow pm) ->
  isInteger (tw_end (timeWindow pm)) ->
  0 <= progressPercent s <= 100 /\
  (progressPercent s == 100 <-> currentTime s == tw_end (timeWindow pm)).
Proof.
  intros Hreach Hpm Hpos Hint.
  destruct (clockInv_within s pm (reachable_clockInv s Hreach) Hpm) as [Hlo Hhi];
    [qlra|exact Hint|].
  unfold progressPercent. rewrite Hpm.
  set (t := currentTime s) in *. set (e := tw_end (timeWindow pm)) in *.
  assert (Hne : ~ e == 0) by (intros Hz; qlra).
  assert (Hq : e * (t / e) == t) by now apply Qmult_div_r.
  assert (Hq0 : 0 <= t / e) by (apply Qle_shift_div_l; qlra).
  assert (Hq1 : t / e <= 1) by (apply Qle_shift_div_r; qlra).
  split; [split; qlra|]. split; intros H.
  - assert (Hone : t / e == 1) by qlra. rewrite Hone in Hq. qlra.
  - assert (Hone : t / e == 1).
    { rewrite H. unfold Qdiv. apply Qmult_inv_r. qlra. }
    rewrite Hone. reflexivity.
Qed.

Lemma progressPercent_range_witness :
  let s := run [Tick; Tick] (Demo.playing (mkTimeWindow 0 5)) in
  0 <= progressPercent s <= 100 /\
  (progressPercent s == 100 <-> currentTime s == 5).
Proof.
  cbv zeta.
  apply (progressPercent_range _ (Demo.primaryOf (mkTimeWindow 0 5))).
  - apply reachable_run, reachable_playing.
  - vm_compute. reflexivity.
  - reflexivity.
  - exists 5%Z. reflexivity.
Defined.

End PanelMore.

Module SceneMore.
Import Notions Projection Sampler SamplerMore Scene.

(** The position the sampler returns is the position of a sample of the
    trajectory. *)
Lemma getPositionAtTime_sample (trajectory : Trajectory) (t : Q) (pos : Position) :
  getPositionAtTime (Some trajectory) t = Some pos ->
  exists sample, sample ∈ trajectory /\ pos = position sample.
Proof.
  destruct trajectory as [|first rest]; [discriminate|]. intros H.
  destruct (nearest_sample first rest t) as (i & s & Hi & Hres & _).
  exists s. split.
  - apply list_elem_of_lookup. eauto.
  - congruence.
Qed.

(** X19: A mission has a marker exactly when the trajectory map holds a
    trajectory with at least one sample under its identifier, and the
    marker then sits at the projection of the position of one of the
    samples: positions between samples are never drawn. *)
Theorem renderDrone_marker (trajectories : gmap string (option Trajectory))
    (t : Q) (missionId color label : string) :
  (forall marker,
     renderDrone trajectories t missionId color label = Some marker ->
     exists trajectory sample,
       trajectories !! missionId = Some (Some trajectory) /\
       sample ∈ trajectory /\
       marker = markerAt (project (pos_x (position sample))
                                  (pos_y (position sample))
                                  (pos_z (position sample))) color label) /\
  (forall trajectory,
     trajectories !! missionId = Some (Some trajectory) ->
     trajectory <> [] ->
     is_Some (renderDrone trajectories t missionId color label)).
Proof.
  unfold renderDrone. split.
  - intros marker H.
    destruct (trajectories !! missionId) as [[trajectory|]|]; try discriminate.
    destruct (getPositionAtTime (Some trajectory) t) as [pos|] eqn:Hpos;
      [|discriminate].
    apply getPositionAtTime_sample in Hpos as (sample & Hin & ->).
    exists trajectory, sample. repeat split; auto. now injection H as <-.
  - intros trajectory -> Hne. destruct trajectory as [|first rest]; [congruence|].
    cbn. eauto.
Qed.

Lemma renderDrone_marker_witness :
  let trajectories : gmap string (option Trajectory) :=
    {[ "PRIMARY" := Some Demo.sampled ]} in
  (exists trajectory sample,
     trajectories !! "PRIMARY" = Some (Some trajectory) /\
     sample ∈ trajectory /\
     markerAt (project 100 100 50) "#3b82f6" "PRIMARY"
     = markerAt (project (pos_x (position sample))
                         (pos_y (position sample))
                         (pos_z (position sample))) "#3b82f6" "PRIMARY") /\
  is_Some (renderDrone trajectories 4 "PRIMARY" "#3b82f6" "PRIMARY").
Proof.
  cbv zeta.
  destruct (renderDrone_marker {[ "PRIMARY" := Some Demo.sampled ]} 4
              "PRIMARY" "#3b82f6" "PRIMARY") as [Hfrom Hto].
  split.
  - apply Hfrom. reflexivity.
  - apply (Hto Demo.sampled); [reflexivity|discriminate].
Defined.

(** A path whose steps are all line-to. *)
Lemma imap_lineTo (f : nat -> ScreenPoint -> PathCommand * ScreenPoint)
    (points : list ScreenPoint) :
  (forall i p, f i p = (LineTo, p)) ->
  map fst (imap f points) = replicate (length points) LineTo /\
  map snd (imap f points) = points.
Proof.
  revert f. induction points as [|p points IH]; intros f Hf; [now split|].
  rewrite imap_cons, Hf. cbn.
  destruct (IH (f ∘ S)) as [-> ->]; [|now split].
  intros i q. apply Hf.
Qed.

(** X20: The overlay of a flight path: one path element followed by one dot per
    waypoint; the path visits the projections of the waypoints in their
    order, and its commands are one move-to at the head followed by
    line-to only, so the polyline is drawn in one piece. *)
Theorem renderPath_shape (waypoints : list Position) (color : string) (opacity : R) :
  exists pathD dots,
    renderPath waypoints color opacity = Path pathD color opacity :: dots /\
    map snd pathD
    = map (fun w => project (pos_x w) (pos_y w) (pos_z w)) waypoints /\
    map fst pathD
    = match waypoints with
      | [] => []
      | _ :: rest => MoveTo :: replicate (length rest) LineTo
      end /\
    dots = map (fun w => let p := project (pos_x w) (pos_y w) (pos_z w) in
                         Circle (sx p) (sy p) 3 color (Some opacity))
               waypoints.
Proof.
  unfold renderPath. eexists _, _. split; [reflexivity|].
  split; [|split].
  - destruct waypoints as [|w rest]; [reflexivity|]. cbn [map]. rewrite imap_cons.
    cbn [map snd]. f_equal. now apply imap_lineTo.
  - destruct waypoints as [|w rest]; [reflexivity|]. cbn [map]. rewrite imap_cons.
    cbn [map fst]. f_equal.
    rewrite (proj1 (imap_lineTo _ _ (fun _ _ => eq_refl))).
    now rewrite length_map.
  - now rewrite map_map.
Qed.

End SceneMore.
